(** * chopper: a 802.11 channel hopper (chopper.go)

    A shallow embedding of [chopper.go] and the properties of its channel
    list parser, its channel-to-frequency mapper, its hop loop and its
    termination logic.

    Conventions of the embedding.
    - A Go [string] is a sequence of bytes: [String.string], one [ascii]
      per byte.
    - Go's [int] is the 64-bit signed integer of the platforms the program
      is built for (linux/amd64, linux/arm64); [int64], [uint64] and
      [uint32] values are carried by [Z], with the wrap-around of each
      conversion and operation written out.
    - Everything written to standard error is recorded, one constructor of
      [Output] per [fmt.Fprintf] call, with the arguments of the call.
    - The packages the program imports (regexp, strings, strconv, pflag,
      netlink, time, os/signal) are modelled by what the program uses of
      them; the kernel transport is a parameter of the development. *)

From Stdlib Require Import ZArith List Bool Ascii String Lia.
Import ListNotations.

Local Open Scope string_scope.
Local Open Scope list_scope.
Local Open Scope Z_scope.

(* ================================================================== *)
(** ** Machine integers *)

Module GoInt.

Definition wrapU (bits : Z) (z : Z) : Z := z mod 2 ^ bits.

Definition wrapS (bits : Z) (z : Z) : Z :=
  (z + 2 ^ (bits - 1)) mod 2 ^ bits - 2 ^ (bits - 1).

(** [int] and [int64]. *)
Definition int64 (z : Z) : Z := wrapS 64 z.
Definition uint64 (z : Z) : Z := wrapU 64 z.
Definition uint32 (z : Z) : Z := wrapU 32 z.

Definition maxInt64 : Z := 2 ^ 63 - 1.
Definition minInt64 : Z := - 2 ^ 63.
Definition maxUint64 : Z := 2 ^ 64 - 1.

Definition is_int (z : Z) : Prop := minInt64 <= z <= maxInt64.

End GoInt.

(* ================================================================== *)
(** ** Bytes and strings *)

Definition byte_val (c : ascii) : Z := Z.of_N (N_of_ascii c).

(** ['0' <= c && c <= '9'] *)
Definition isDigit (c : ascii) : bool :=
  (48 <=? byte_val c) && (byte_val c <=? 57).

Definition isComma (c : ascii) : bool := byte_val c =? 44.

Definition comma : ascii := ","%char.

Fixpoint str_filter (p : ascii -> bool) (s : string) : string :=
  match s with
  | EmptyString => EmptyString
  | String c r => if p c then String c (str_filter p r) else str_filter p r
  end.

Fixpoint str_forall (p : ascii -> bool) (s : string) : bool :=
  match s with
  | EmptyString => true
  | String c r => p c && str_forall p r
  end.

(* ================================================================== *)
(** ** regexp: the pattern [[^0-9,]+] and [ReplaceAllString]

    The pattern is a constant of the program; [regexp.Compile] accepts it,
    so the [err != nil] branch after it is never taken.  The pattern
    matches a maximal run of runes outside the class [0-9,].  Every byte
    of a multi-byte or ill-formed UTF-8 sequence is at least 0x80, hence
    neither a digit nor a comma, and a run of such runes is a run of such
    bytes: matching rune by rune and byte by byte delete the same bytes. *)

Module Regexp.

(** A byte can start or continue a match of [[^0-9,]+]. *)
Definition inClass (c : ascii) : bool := negb (isDigit c || isComma c).

(** [replaceAll repl inMatch s]: scan [s] from the left; [inMatch] tells
    that the previous byte belongs to the match in progress, whose
    replacement has already been written. *)
Fixpoint replaceAll (repl : string) (inMatch : bool) (s : string) : string :=
  match s with
  | EmptyString => EmptyString
  | String c r =>
      if inClass c then
        if inMatch then replaceAll repl true r
        else (repl ++ replaceAll repl true r)%string
      else String c (replaceAll repl false r)
  end.

(** [reg.ReplaceAllString(src, repl)] for [reg = [^0-9,]+] and a
    replacement without [$]. *)
Definition ReplaceAllString (src repl : string) : string :=
  replaceAll repl false src.

End Regexp.

(* ================================================================== *)
(** ** strings.Split with the one-byte separator [","] *)

Module Strings.

(** [strings.Split(s, ",")]: the fields between the commas of [s], empty
    fields included; one more field than [s] has commas. *)
Fixpoint Split (s : string) : list string :=
  match s with
  | EmptyString => [EmptyString]
  | String c r =>
      if isComma c then EmptyString :: Split r
      else match Split r with
           | [] => [String c EmptyString]
           | field :: fields => String c field :: fields
           end
  end.

(** [strings.Join(elems, ",")] *)
Fixpoint Join (elems : list string) : string :=
  match elems with
  | [] => EmptyString
  | [e] => e
  | e :: rest => (e ++ String comma (Join rest))%string
  end.

End Strings.

(* ================================================================== *)
(** ** strconv: ParseUint, ParseInt (base 10) and Itoa *)

Module Strconv.

Inductive Err := ErrSyntax | ErrRange.

(** [*strconv.NumError] *)
Record NumError := mkNumError { Func : string; Num : string; Err_ : Err }.

(** A Go result pair [(value, err)]. *)
Definition result : Type := Z * option NumError.

Definition syntaxError (fn s : string) : NumError := mkNumError fn s ErrSyntax.
Definition rangeError (fn s : string) : NumError := mkNumError fn s ErrRange.

(** The loop of [ParseUint] for base 10: [n] is the value read so far,
    [s] what is left to read, [s0] the whole argument (for the error
    value).  A byte that is not a decimal digit is a syntax error: a
    letter has digit value at least 10, the base, and any other byte is
    refused outright (the underscore is only accepted for base 0). *)
Fixpoint parseUintLoop (s0 : string) (maxVal cutoff : Z) (n : Z) (s : string)
  : result :=
  match s with
  | EmptyString => (n, None)
  | String c r =>
      if isDigit c then
        let d := byte_val c - 48 in
        if cutoff <=? n then
          (* n*base overflows *)
          (maxVal, Some (rangeError "ParseUint" s0))
        else
          let n' := GoInt.uint64 (n * 10) in
          let n1 := GoInt.uint64 (n' + d) in
          if (n1 <? n') || (maxVal <? n1) then
            (* n+d overflows *)
            (maxVal, Some (rangeError "ParseUint" s0))
          else parseUintLoop s0 maxVal cutoff n1 r
      else (0, Some (syntaxError "ParseUint" s0))
  end.

(** [strconv.ParseUint(s, 10, bitSize)] for [0 < bitSize <= 64]. *)
Definition ParseUint (s : string) (bitSize : Z) : result :=
  match s with
  | EmptyString => (0, Some (syntaxError "ParseUint" s))
  | _ =>
      let cutoff := GoInt.maxUint64 / 10 + 1 in
      let maxVal := 2 ^ bitSize - 1 in
      parseUintLoop s maxVal cutoff 0 s
  end.

Definition isRange (e : NumError) : bool :=
  match Err_ e with ErrRange => true | ErrSyntax => false end.

(** [strconv.ParseInt(s, 10, bitSize)] for [0 < bitSize <= 64]. *)
Definition ParseInt (s0 : string) (bitSize : Z) : result :=
  match s0 with
  | EmptyString => (0, Some (syntaxError "ParseInt" s0))
  | String c r =>
      (* Pick off leading sign. *)
      let '(neg, s) :=
        if (byte_val c =? 43) then (false, r)
        else if (byte_val c =? 45) then (true, r)
        else (false, s0) in
      (* Convert unsigned and check range. *)
      let '(un, err) := ParseUint s bitSize in
      let stop :=
        match err with
        | Some e => negb (isRange e)
        | None => false
        end in
      if stop then
        (0, option_map (fun e => mkNumError "ParseInt" s0 (Err_ e)) err)
      else
        let cutoff := 2 ^ (bitSize - 1) in
        if negb neg && (cutoff <=? un) then
          (cutoff - 1, Some (rangeError "ParseInt" s0))
        else if neg && (cutoff <? un) then
          (- cutoff, Some (rangeError "ParseInt" s0))
        else
          let n := GoInt.int64 un in
          ((if neg then GoInt.int64 (- n) else n), None)
  end.

(** Decimal digits of a non-negative number, most significant first,
    written from the right as [formatBits] does; [fuel] bounds the
    number of digits. *)
Fixpoint formatBits (fuel : nat) (u : Z) (acc : string) : string :=
  match fuel with
  | O => acc
  | S fuel' =>
      let acc' := String (ascii_of_N (Z.to_N (48 + u mod 10))) acc in
      if u / 10 =? 0 then acc' else formatBits fuel' (u / 10) acc'
  end.

(** [strconv.Itoa(i)]; an [int] has at most 19 decimal digits. *)
Definition Itoa (i : Z) : string :=
  if i <? 0 then String "-"%char (formatBits 20 (- i) EmptyString)
  else formatBits 20 i EmptyString.

End Strconv.

(* ================================================================== *)
(** ** Standard error *)

(** The text of an [error] of the imported packages. *)
Definition error : Type := string.

Inductive Output :=
| WarnParsing (e : Strconv.NumError)
    (** ["WARNING: there was an error parsing: %v\n", err] *)
| WarnPleaseReport
    (** ["WARNING: please report it.\n"] *)
| WarnDelay
    (** ["WARNING: the delay is very small, why are you doing this?\n"] *)
| WarnTimeout
    (** ["WARNING: timeout cannot be 0, running until SIGINT.\n"] *)
| ErrorLine (e : error)
    (** ["ERROR: %v\n", err] *)
| ErrorNetlink (e : error)
    (** ["ERROR: cannot connect to Netlink socket: %v\n", err] *)
| ErrorNl80211
    (** ["ERROR: nl80211 not available\n"] *)
| CannotSetChannel (channel : Z)
    (** ["Cannot set channel %v\n", channels[idx]] *)
| UsageText
    (** [flag.Usage()] *)
| PrintVersion
    (** ["%s v%s\n", ProgramName, Version], on standard output *).

(* ================================================================== *)
(** ** channelToFrequency *)

Definition channelToFrequency (channel : Z) : Z :=
  if channel <=? 0 then 0
  else if channel =? 14 then 2484
  else if channel <? 14 then GoInt.int64 (2407 + GoInt.int64 (channel * 5))
  else 0.

(* ================================================================== *)
(** ** parseChannelsString *)

(** The body of the [for _, part := range ...] loop: [ret] and the
    standard error written so far are threaded through. *)
Definition parsePart (acc : list Z * list Output) (part : string)
  : list Z * list Output :=
  let '(ret, out) := acc in
  match part with
  | EmptyString => (ret, out)
  | _ =>
      let '(value, err) := Strconv.ParseInt part 32 in
      match err with
      | Some e => (ret, out ++ [WarnParsing e; WarnPleaseReport])
      | None =>
          if value =? 0 then (ret, out)
          else (ret ++ [GoInt.int64 value], out)
      end
  end.

(** [parseChannelsString(input)]: the slice returned, the error returned
    (always [nil]: see [Regexp]) and what was written to standard error. *)
Definition parseChannelsString (input : string)
  : list Z * option error * list Output :=
  let processedString := Regexp.ReplaceAllString input "" in
  let '(ret, out) :=
    fold_left parsePart (Strings.Split processedString) ([], []) in
  (ret, None, out).

Definition parsed (input : string) : list Z :=
  fst (fst (parseChannelsString input)).

Definition parse_warnings (input : string) : list Output :=
  snd (parseChannelsString input).

(* ================================================================== *)
(** ** The collaborators of [main]: wifi, genetlink, nl80211 *)

Definition len {A} (l : list A) : Z := Z.of_nat (List.length l).

(** [l[i]] of a Go slice: [None] stands for the run-time panic
    "index out of range". *)
Definition index {A} (l : list A) (i : Z) : option A :=
  if (i <? 0) || (len l <=? i) then None else nth_error l (Z.to_nat i).

Module Wifi.
Inductive InterfaceType := InterfaceTypeMonitor | InterfaceTypeOther.
Record Interface :=
  { Index : Z; Name : string; Type_ : InterfaceType }.
Definition isMonitor (t : InterfaceType) : bool :=
  match t with InterfaceTypeMonitor => true | InterfaceTypeOther => false end.
End Wifi.

Module Nl80211.
Inductive AttrType :=
  AttrIfindex | AttrWiphyFreq | AttrChannelWidth | AttrWiphyChannelType.
Inductive Command := CommandSetChannel.
(** The constants of the kernel interface that the program sends. *)
Inductive Const := ChanWidth20Noht | ChanHt20.
End Nl80211.

Module Netlink.
(** The [Data] of an attribute is [nlenc.Uint32Bytes(uint32(x))]: the
    four bytes of a 32-bit value, kept here as that value, or as the
    name of the kernel constant converted. *)
Inductive Data := Uint32Bytes (v : Z) | Uint32Const (c : Nl80211.Const).
Record Attribute := { Type_ : Nl80211.AttrType; Data_ : Data }.
Inductive HeaderFlag := Request | Acknowledge.
End Netlink.

Module Genetlink.
Record Family := { ID : Z; Version : Z }.
(** [genetlink.Message]; [Data] is the marshalled attribute list, kept as
    the list it encodes. *)
Record Message :=
  { Command : Nl80211.Command;
    HVersion : Z;
    Data : list Netlink.Attribute }.
(** One call of [nlSocket.Execute(m, family, flags)]. *)
Record Call :=
  { msg : Message; family : Z; flags : list Netlink.HeaderFlag }.
End Genetlink.

(** What the operating system answers.  [Execute k c] is the error (or
    [None] for an acknowledgement) returned by the call of
    [nlSocket.Execute] that follows [k] earlier calls. *)
Record Env := {
  wifi_New : option error;
  client_Interfaces : list Wifi.Interface + error;
  genetlink_Dial : option error;
  GetFamily : Genetlink.Family + error;
  MarshalAttributes : list Netlink.Attribute -> option error;
  Execute : nat -> Genetlink.Call -> option error
}.

(** The frequency attribute of a message, as the kernel reads it. *)
Definition wiphyFreq (m : Genetlink.Message) : option Z :=
  match
    find (fun a => match Netlink.Type_ a with
                   | Nl80211.AttrWiphyFreq => true
                   | _ => false
                   end) (Genetlink.Data m)
  with
  | Some a => match Netlink.Data_ a with
              | Netlink.Uint32Bytes v => Some v
              | Netlink.Uint32Const _ => None
              end
  | None => None
  end.

(* ================================================================== *)
(** ** checkMonitorInterface *)

Inductive Checked :=
| CheckPanic                          (** [log.Panicln(err)] *)
| CheckErr (e : error)
| CheckOk (iface : Wifi.Interface).

(** The texts of [errors.New(fmt.Sprintf(...))]. *)
Definition cannotFind (iface : string) : error :=
  ("cannot find " ++ iface)%string.
Definition notMonitor (iface : string) : error :=
  (iface ++ " is not in monitor mode")%string.

Definition checkMonitorInterface (env : Env) (iface : string) : Checked :=
  match wifi_New env with
  | Some _ => CheckPanic
  | None =>
      match client_Interfaces env with
      | inr err => CheckErr err
      | inl interfaces =>
          match find (fun w => String.eqb (Wifi.Name w) iface) interfaces with
          | None => CheckErr (cannotFind iface)
          | Some ifaceFound =>
              if negb (Wifi.isMonitor (Wifi.Type_ ifaceFound))
              then CheckErr (notMonitor iface)
              else CheckOk ifaceFound
          end
      end
  end.

(* ================================================================== *)
(** ** The process: flags, goroutines, the [quit] channel *)

(** The package-level variables set by [flag.Parse()], and the names of
    the flags given on the command line (what [flag.Visit] visits). *)
Record Flags := {
  showHelp : bool;
  showVersion : bool;
  interfaceName : string;
  channelsString : string;
  delay : Z;
  timeout : Z;
  visited : list string
}.

Definition isFlagPassed (f : Flags) (name : string) : bool :=
  fold_left (fun found n => if String.eqb n name then true else found)
            (visited f) false.

(** [time.Duration] is an [int64] count of nanoseconds. *)
Module GoTime.
Definition Millisecond : Z := 1000000.
Definition Second : Z := 1000000000.
(** [time.Duration(n) * unit] *)
Definition Duration (n unit : Z) : Z := GoInt.int64 (GoInt.int64 n * unit).
End GoTime.

(** The timer of [time.AfterFunc(d, f)] with [f = func() { quit <- os.Interrupt }]:
    not created, waiting for [d] nanoseconds to elapse, its callback
    blocked on the send, or its callback finished. *)
Inductive Timer := NoTimer | Armed (d : Z) | Sending | Fired.

Inductive Status :=
| Looping                 (** at the head of [for running] *)
| Returned                (** [main] fell out of the loop and returned *)
| Exited (code : Z)       (** [os.Exit(code)] *)
| Panicked.

(** The main goroutine from [idx := 0] on. *)
Record Proc := {
  idx : Z;
  stderr : list Output;
  calls : list Genetlink.Call;   (** the calls of [Execute], oldest first *)
  sleeps : list Z;               (** the arguments of [time.Sleep] *)
  status : Status
}.

Definition defaultChannels : list Z :=
  [1; 8; 2; 9; 3; 10; 4; 11; 5; 12; 6; 13; 7].

(** What the loop reads and never writes. *)
Record Setup := {
  channels : list Z;
  iface : Wifi.Interface;
  nl80211Family : Genetlink.Family;
  hopDelay : Z
}.

Definition attributes (cfg : Setup) (channel : Z) : list Netlink.Attribute :=
  [ {| Netlink.Type_ := Nl80211.AttrIfindex;
       Netlink.Data_ := Netlink.Uint32Bytes (GoInt.uint32 (Wifi.Index (iface cfg))) |};
    {| Netlink.Type_ := Nl80211.AttrWiphyFreq;
       Netlink.Data_ := Netlink.Uint32Bytes (GoInt.uint32 (channelToFrequency channel)) |};
    {| Netlink.Type_ := Nl80211.AttrChannelWidth;
       Netlink.Data_ := Netlink.Uint32Const Nl80211.ChanWidth20Noht |};
    {| Netlink.Type_ := Nl80211.AttrWiphyChannelType;
       Netlink.Data_ := Netlink.Uint32Const Nl80211.ChanHt20 |} ].

Definition setChannel (cfg : Setup) (channel : Z) : Genetlink.Call :=
  {| Genetlink.msg :=
       {| Genetlink.Command := Nl80211.CommandSetChannel;
          Genetlink.HVersion := Genetlink.Version (nl80211Family cfg);
          Genetlink.Data := attributes cfg channel |};
     Genetlink.family := Genetlink.ID (nl80211Family cfg);
     Genetlink.flags := [Netlink.Request; Netlink.Acknowledge] |}.

Definition die (p : Proc) (out : list Output) (code : Z) : Proc :=
  {| idx := idx p; stderr := stderr p ++ out; calls := calls p;
     sleeps := sleeps p; status := Exited code |}.

Definition setStatus (p : Proc) (st : Status) : Proc :=
  {| idx := idx p; stderr := stderr p; calls := calls p;
     sleeps := sleeps p; status := st |}.

(** One evaluation of the loop condition [running] by the main goroutine
    and, when it holds, one run of the loop body. *)
Definition hop (env : Env) (cfg : Setup) (running : bool) (p : Proc) : Proc :=
  match status p with
  | Looping =>
      if negb running then setStatus p Returned
      else
        match index (channels cfg) (idx p) with
        | None => setStatus p Panicked
        | Some channel =>
            (* Prepare attributes *)
            match MarshalAttributes env (attributes cfg channel) with
            | Some err => die p [ErrorLine err] 1
            | None =>
                (* Prepare message *)
                let call := setChannel cfg channel in
                match Execute env (List.length (calls p)) call with
                | Some err =>
                    {| idx := idx p;
                       stderr := stderr p ++ [CannotSetChannel channel; ErrorLine err];
                       calls := calls p ++ [call];
                       sleeps := sleeps p;
                       status := Exited 1 |}
                | None =>
                    (* Increase counter *)
                    let idx1 := GoInt.int64 (idx p + 1) in
                    let idx2 := if len (channels cfg) <=? idx1 then 0 else idx1 in
                    (* Delay *)
                    {| idx := idx2;
                       stderr := stderr p;
                       calls := calls p ++ [call];
                       sleeps := sleeps p ++ [GoTime.Duration (hopDelay cfg) GoTime.Millisecond];
                       status := Looping |}
                end
            end
        end
  | _ => p
  end.

(** [n] iterations during which [running] is read as [true]. *)
Fixpoint hops (env : Env) (cfg : Setup) (n : nat) (p : Proc) : Proc :=
  match n with
  | O => p
  | S n' => hops env cfg n' (hop env cfg true p)
  end.

Definition start (out : list Output) : Proc :=
  {| idx := 0; stderr := out; calls := []; sleeps := []; status := Looping |}.

(* ================================================================== *)
(** ** [main] up to the loop, and the goroutines around it *)

Inductive Signal := Interrupt.   (** [os.Interrupt] *)

(** The process once [main] reaches [idx := 0].  [quit] is the content of
    the channel [make(chan os.Signal, 1)]; [listener] tells that the
    goroutine [func() { <-quit; running = false }] has not received yet. *)
Record Sys := {
  running : bool;
  quit : list Signal;
  listener : bool;
  timer : Timer;
  proc : Proc
}.

Inductive Boot :=
| BootExit (code : Z) (out : list Output)
| BootPanic
| BootLoop (cfg : Setup) (s : Sys).

(** What [main] does with [--timeout]: the warning printed and the timer
    created. *)
Definition armTimeout (f : Flags) : list Output * Timer :=
  if isFlagPassed f "timeout" then
    if timeout f <=? 0 then ([WarnTimeout], NoTimer)
    else ([], Armed (GoTime.Duration (timeout f) GoTime.Second))
  else ([], NoTimer).

Definition main (env : Env) (f : Flags) : Boot :=
  if showHelp f then BootExit 0 [UsageText]
  else if showVersion f then BootExit 0 [PrintVersion]
  else
    (* Check arguments *)
    if String.eqb (interfaceName f) "" then BootExit 1 [UsageText]
    else
      let out1 :=
        if isFlagPassed f "delay" && (delay f <? 10) then [WarnDelay] else [] in
      let '(out2, tm) := armTimeout f in
      let '(channels0, _, out3) := parseChannelsString (channelsString f) in
      let channels :=
        if len channels0 <=? 0 then defaultChannels else channels0 in
      let out := out1 ++ out2 ++ out3 in
      (* Check interface *)
      match checkMonitorInterface env (interfaceName f) with
      | CheckPanic => BootPanic
      | CheckErr err => BootExit 1 (out ++ [ErrorLine err])
      | CheckOk iface =>
          (* Connect to generic Netlink socket *)
          match genetlink_Dial env with
          | Some err => BootExit 1 (out ++ [ErrorNetlink err])
          | None =>
              (* Resolve nl80211 *)
              match GetFamily env with
              | inr _ => BootExit 1 (out ++ [ErrorNl80211])
              | inl fam =>
                  BootLoop
                    {| channels := channels; iface := iface;
                       nl80211Family := fam; hopDelay := delay f |}
                    {| running := true; quit := []; listener := true;
                       timer := tm; proc := start out |}
              end
          end
      end.

(** What can happen next in the process, one goroutine at a time. *)
Inductive Event :=
| SigInt         (** the process receives SIGINT: package signal sends
                     [os.Interrupt] on [quit] without blocking, and drops
                     it when the channel is full *)
| TimerRuns      (** the runtime runs, or resumes, the timer's callback;
                     when the duration elapses is not part of the model *)
| ListenerRuns   (** the listening goroutine is scheduled *)
| MainRuns       (** the main goroutine tests [running] and, if it holds,
                     runs the loop body once *).

Definition quitCap : nat := 1.

Definition hasRoom (q : list Signal) : bool := Nat.ltb (List.length q) quitCap.

Definition step (env : Env) (cfg : Setup) (s : Sys) (ev : Event) : Sys :=
  match status (proc s) with
  | Looping =>
      match ev with
      | SigInt =>
          if hasRoom (quit s) then
            {| running := running s; quit := quit s ++ [Interrupt];
               listener := listener s; timer := timer s; proc := proc s |}
          else s
      | TimerRuns =>
          match timer s with
          | Armed _ | Sending =>
              if hasRoom (quit s) then
                {| running := running s; quit := quit s ++ [Interrupt];
                   listener := listener s; timer := Fired; proc := proc s |}
              else
                {| running := running s; quit := quit s;
                   listener := listener s; timer := Sending; proc := proc s |}
          | NoTimer | Fired => s
          end
      | ListenerRuns =>
          match listener s, quit s with
          | true, _ :: q =>
              {| running := false; quit := q;
                 listener := false; timer := timer s; proc := proc s |}
          | _, _ => s
          end
      | MainRuns =>
          {| running := running s; quit := quit s;
             listener := listener s; timer := timer s;
             proc := hop env cfg (running s) (proc s) |}
      end
  | _ => s
  end.

Definition run (env : Env) (cfg : Setup) (evs : list Event) (s : Sys) : Sys :=
  fold_left (step env cfg) evs s.

Definition isMain (ev : Event) : bool :=
  match ev with MainRuns => true | _ => false end.

(* ================================================================== *)
(** ** The parser as the specification words it

    Strip every character that is not an ASCII digit or a comma, split on
    commas, skip the empty tokens, read each token as a decimal number,
    skip (with a warning) those that do not fit a signed 32-bit integer,
    skip the zeros, keep the rest in order. *)

Module Spec.

Definition keep (c : ascii) : bool := isDigit c || isComma c.

Definition strip (s : string) : string := str_filter keep s.

(** The number written by the digits of [tok], continuing from [acc]. *)
Fixpoint decimal (acc : Z) (tok : string) : Z :=
  match tok with
  | EmptyString => acc
  | String c r => decimal (acc * 10 + (byte_val c - 48)) r
  end.

Definition isEmpty (s : string) : bool :=
  match s with EmptyString => true | _ => false end.

Definition overflows (tok : string) : bool :=
  negb (isEmpty tok) && (2 ^ 31 <=? decimal 0 tok).

Definition tokenValue (tok : string) : list Z :=
  if isEmpty tok || overflows tok || (decimal 0 tok =? 0) then []
  else [decimal 0 tok].

Definition tokenWarning (tok : string) : list Output :=
  if overflows tok
  then [WarnParsing (Strconv.rangeError "ParseInt" tok); WarnPleaseReport]
  else [].

Definition tokens (input : string) : list string :=
  Strings.Split (strip input).

Definition parse (input : string) : list Z :=
  flat_map tokenValue (tokens input).

Definition warnings (input : string) : list Output :=
  flat_map tokenWarning (tokens input).

(** The decimal writing of the elements, joined with commas. *)
Definition unparse (l : list Z) : string :=
  Strings.Join (map Strconv.Itoa l).

End Spec.

(* ================================================================== *)
(** ** Runs of the loop, and the inputs used as examples *)

(** The loop of [parseChannelsString] over some tokens, from an empty
    result. *)
Definition parseParts (toks : list string) : list Z * list Output :=
  fold_left parsePart toks ([], []).

(** The tokens the loop ranges over. *)
Definition parts (input : string) : list string :=
  Strings.Split (Regexp.ReplaceAllString input "").

(** The channel under the cursor at tick [k] (ticks are counted from 0)
    of a run whose ticks all succeed. *)
Definition channelAt (cfg : Setup) (k : nat) : Z :=
  nth (Z.to_nat (Z.of_nat k mod len (channels cfg))) (channels cfg) 0.

(** Tick [k] succeeds: the attributes are marshalled and the kernel
    acknowledges the command. *)
Definition tickOk (env : Env) (cfg : Setup) (k : nat) : Prop :=
  MarshalAttributes env (attributes cfg (channelAt cfg k)) = None /\
  Execute env k (setChannel cfg (channelAt cfg k)) = None.

(** The state of the main goroutine after [k] successful ticks. *)
Definition afterTicks (cfg : Setup) (out : list Output) (k : nat) : Proc :=
  {| idx := Z.of_nat k mod len (channels cfg);
     stderr := out;
     calls := map (fun j => setChannel cfg (channelAt cfg j)) (seq 0 k);
     sleeps := repeat (GoTime.Duration (hopDelay cfg) GoTime.Millisecond) k;
     status := Looping |}.

(** A monitor-mode interface, a kernel that acknowledges every command,
    and the set-up of a run over a given channel list. *)
Definition wlan0mon : Wifi.Interface :=
  {| Wifi.Index := 3; Wifi.Name := "wlan0mon";
     Wifi.Type_ := Wifi.InterfaceTypeMonitor |}.

Definition nl80211 : Genetlink.Family :=
  {| Genetlink.ID := 28; Genetlink.Version := 1 |}.

Definition kernelOk : Env :=
  {| wifi_New := None;
     client_Interfaces := inl [wlan0mon];
     genetlink_Dial := None;
     GetFamily := inl nl80211;
     MarshalAttributes := fun _ => None;
     Execute := fun _ _ => None |}.

(** A kernel that refuses the command numbered [k]. *)
Definition kernelFailsAt (k : nat) (err : error) : Env :=
  {| wifi_New := None;
     client_Interfaces := inl [wlan0mon];
     genetlink_Dial := None;
     GetFamily := inl nl80211;
     MarshalAttributes := fun _ => None;
     Execute := fun j _ => if Nat.eqb j k then Some err else None |}.

Definition setupOf (chs : list Z) : Setup :=
  {| channels := chs; iface := wlan0mon; nl80211Family := nl80211;
     hopDelay := 200 |}.

(** The safety property of the data model, as the specification words it:
    a hop whose channel maps to frequency 0 is skipped (no command is
    submitted) or fails loudly (the process stops with an error). *)
Definition zeroHopGuarded (env : Env) (cfg : Setup) (p : Proc) : Prop :=
  forall channel,
    status p = Looping ->
    index (channels cfg) (idx p) = Some channel ->
    channelToFrequency channel = 0 ->
    let p' := hop env cfg true p in
    calls p' = calls p \/
    (exists code, status p' = Exited code /\ code <> 0) \/
    status p' = Panicked.

(** The process as [main] leaves it at [idx := 0]. *)
Definition sys0 (tm : Timer) : Sys :=
  {| running := true; quit := []; listener := true; timer := tm;
     proc := start [] |}.

Definition flagsOf (chs : string) (t : Z) (given : list string) : Flags :=
  {| showHelp := false; showVersion := false; interfaceName := "wlan0mon";
     channelsString := chs; delay := 200; timeout := t; visited := given |}.

(** The number of commas of a string. *)
Fixpoint countComma (s : string) : nat :=
  match s with
  | EmptyString => O
  | String c r => if isComma c then S (countComma r) else countComma r
  end.

Definition isSigInt (ev : Event) : bool :=
  match ev with SigInt => true | _ => false end.

(** How often the main goroutine is scheduled in a sequence of events. *)
Definition countMain (evs : list Event) : nat :=
  List.length (filter isMain evs).

(** The two warning lines written for a token that [ParseInt] refuses. *)
Definition rangeWarning (tok : string) : list Output :=
  [WarnParsing (Strconv.rangeError "ParseInt" tok); WarnPleaseReport].

(** A second interface of the examples, not in monitor mode. *)
Definition wlan0 : Wifi.Interface :=
  {| Wifi.Index := 2; Wifi.Name := "wlan0";
     Wifi.Type_ := Wifi.InterfaceTypeOther |}.

(** An operating system whose interface list is [l]. *)
Definition kernelWith (l : list Wifi.Interface) : Env :=
  {| wifi_New := None;
     client_Interfaces := inl l;
     genetlink_Dial := None;
     GetFamily := inl nl80211;
     MarshalAttributes := fun _ => None;
     Execute := fun _ _ => None |}.

(* ================================================================== *)
(** * Properties *)

(** ** Bytes, stripping and splitting *)

Section ByteFacts.

Lemma byte_val_range (c : ascii) : 0 <= byte_val c < 256.
Proof.
  unfold byte_val. pose proof (N_ascii_bounded c) as H. lia.
Qed.

Lemma isDigit_spec (c : ascii) :
  isDigit c = true <-> 48 <= byte_val c <= 57.
Proof.
  unfold isDigit. rewrite andb_true_iff, !Z.leb_le. tauto.
Qed.

Lemma isComma_spec (c : ascii) : isComma c = true <-> byte_val c = 44.
Proof. unfold isComma. apply Z.eqb_eq. Qed.

Lemma digit_not_comma (c : ascii) : isDigit c = true -> isComma c = false.
Proof.
  intros H. apply isDigit_spec in H.
  destruct (isComma c) eqn:E; [apply isComma_spec in E; lia | reflexivity].
Qed.

Lemma keep_not_inClass (c : ascii) : Regexp.inClass c = negb (Spec.keep c).
Proof. reflexivity. Qed.

Lemma byte_val_digit (d : Z) :
  0 <= d < 10 -> byte_val (ascii_of_N (Z.to_N (48 + d))) = 48 + d.
Proof.
  intros H. unfold byte_val.
  rewrite N_ascii_embedding by lia. lia.
Qed.

End ByteFacts.

Section StringFacts.

Lemma str_filter_app (p : ascii -> bool) (a b : string) :
  str_filter p (a ++ b)%string = (str_filter p a ++ str_filter p b)%string.
Proof.
  induction a as [|c a IH]; simpl; [reflexivity|].
  destruct (p c); simpl; now rewrite IH.
Qed.

Lemma str_filter_id (p : ascii -> bool) (s : string) :
  str_forall p s = true -> str_filter p s = s.
Proof.
  induction s as [|c s IH]; simpl; [reflexivity|].
  intros H. apply andb_true_iff in H as [Hc Hs].
  rewrite Hc. now rewrite IH.
Qed.

Lemma str_forall_app (p : ascii -> bool) (a b : string) :
  str_forall p (a ++ b)%string = str_forall p a && str_forall p b.
Proof.
  induction a as [|c a IH]; simpl; [reflexivity|].
  now rewrite IH, andb_assoc.
Qed.

Lemma str_forall_impl (p q : ascii -> bool) (s : string) :
  (forall c, p c = true -> q c = true) ->
  str_forall p s = true -> str_forall q s = true.
Proof.
  intros Hpq. induction s as [|c s IH]; simpl; [reflexivity|].
  intros H. apply andb_true_iff in H as [Hc Hs].
  now rewrite (Hpq _ Hc), IH.
Qed.

Lemma str_forall_filter (p : ascii -> bool) (s : string) :
  str_forall p (str_filter p s) = true.
Proof.
  induction s as [|c s IH]; simpl; [reflexivity|].
  destruct (p c) eqn:E; simpl; [now rewrite E|assumption].
Qed.

(** The scan of [ReplaceAllString] with an empty replacement deletes the
    bytes outside [0-9,] and nothing else. *)
Lemma replaceAll_empty (inMatch : bool) (s : string) :
  Regexp.replaceAll "" inMatch s = Spec.strip s.
Proof.
  unfold Spec.strip. revert inMatch.
  induction s as [|c s IH]; intros inMatch; simpl; [reflexivity|].
  rewrite keep_not_inClass.
  destruct (Spec.keep c); simpl.
  - now rewrite IH.
  - destruct inMatch; simpl; apply IH.
Qed.

Lemma ReplaceAllString_strip (s : string) :
  Regexp.ReplaceAllString s "" = Spec.strip s.
Proof. apply replaceAll_empty. Qed.

Lemma Split_nonempty (s : string) : Strings.Split s <> [].
Proof.
  induction s as [|c s IH]; simpl; [discriminate|].
  destruct (isComma c); [discriminate|].
  destruct (Strings.Split s); discriminate.
Qed.

Lemma Split_app_comma (a b : string) :
  Strings.Split (a ++ String comma b)%string
  = Strings.Split a ++ Strings.Split b.
Proof.
  induction a as [|c a IH]; simpl; [reflexivity|].
  destruct (isComma c); [now rewrite IH|].
  rewrite IH.
  destruct (Strings.Split a) as [|f fs] eqn:E; [|reflexivity].
  now apply Split_nonempty in E.
Qed.

Lemma Split_no_comma (s : string) :
  str_forall (fun c => negb (isComma c)) s = true -> Strings.Split s = [s].
Proof.
  induction s as [|c s IH]; simpl; [reflexivity|].
  intros H. apply andb_true_iff in H as [Hc Hs].
  apply negb_true_iff in Hc. rewrite Hc, (IH Hs). reflexivity.
Qed.

Lemma Split_Join (toks : list string) :
  toks <> [] ->
  Forall (fun t => str_forall (fun c => negb (isComma c)) t = true) toks ->
  Strings.Split (Strings.Join toks) = toks.
Proof.
  induction toks as [|t toks IH]; [congruence|].
  intros _ H. inversion H as [|? ? Ht Htoks]; subst.
  destruct toks as [|t' toks].
  - simpl. now apply Split_no_comma.
  - change (Strings.Join (t :: t' :: toks))
      with (t ++ String comma (Strings.Join (t' :: toks)))%string.
    rewrite Split_app_comma, (Split_no_comma _ Ht).
    rewrite IH; [reflexivity|discriminate|assumption].
Qed.

(** Every field of a stripped string is made of digits. *)
Lemma Split_digits (s : string) :
  str_forall Spec.keep s = true ->
  Forall (fun t => str_forall isDigit t = true) (Strings.Split s).
Proof.
  induction s as [|c s IH]; simpl.
  - intros _. repeat constructor.
  - intros H. apply andb_true_iff in H as [Hc Hs].
    specialize (IH Hs).
    destruct (isComma c) eqn:E.
    + constructor; [reflexivity|assumption].
    + unfold Spec.keep in Hc. rewrite E, orb_false_r in Hc.
      destruct (Strings.Split s) as [|f fs].
      * repeat constructor. simpl. now rewrite Hc.
      * inversion IH; subst. constructor; [|assumption].
        simpl. now rewrite Hc.
Qed.

Lemma tokens_digits (input : string) :
  Forall (fun t => str_forall isDigit t = true) (Spec.tokens input).
Proof.
  apply Split_digits. apply str_forall_filter.
Qed.

End StringFacts.

(** ** strconv on strings of digits *)

Section StrconvFacts.

Lemma wrapU_small (bits z : Z) :
  0 <= z < 2 ^ bits -> GoInt.wrapU bits z = z.
Proof. intros H. unfold GoInt.wrapU. now apply Z.mod_small. Qed.

Lemma wrapS_small (bits z : Z) :
  0 < bits -> - 2 ^ (bits - 1) <= z < 2 ^ (bits - 1) -> GoInt.wrapS bits z = z.
Proof.
  intros Hb H. unfold GoInt.wrapS.
  assert (E : 2 ^ bits = 2 * 2 ^ (bits - 1)).
  { replace bits with (Z.succ (bits - 1)) at 1 by lia.
    rewrite Z.pow_succ_r by lia. reflexivity. }
  rewrite Z.mod_small by lia. lia.
Qed.

Lemma int64_small (z : Z) :
  - 9223372036854775808 <= z < 9223372036854775808 -> GoInt.int64 z = z.
Proof.
  intros H. unfold GoInt.int64. apply wrapS_small; [lia|].
  change (2 ^ (64 - 1)) with 9223372036854775808. lia.
Qed.

Lemma uint64_small (z : Z) :
  0 <= z < 18446744073709551616 -> GoInt.uint64 z = z.
Proof.
  intros H. unfold GoInt.uint64. apply wrapU_small.
  change (2 ^ 64) with 18446744073709551616. lia.
Qed.

Lemma uint32_small (z : Z) :
  0 <= z < 4294967296 -> GoInt.uint32 z = z.
Proof.
  intros H. unfold GoInt.uint32. apply wrapU_small.
  change (2 ^ 32) with 4294967296. lia.
Qed.

Lemma decimal_ge (s : string) (n : Z) :
  str_forall isDigit s = true -> 0 <= n -> n <= Spec.decimal n s.
Proof.
  revert n. induction s as [|c s IH]; intros n H Hn; simpl; [lia|].
  simpl in H. apply andb_true_iff in H as [Hc Hs].
  apply isDigit_spec in Hc.
  specialize (IH (n * 10 + (byte_val c - 48)) Hs). lia.
Qed.

(** The loop of [ParseUint] computes the decimal value, or reports that
    it exceeds [2^32 - 1]. *)
Lemma parseUintLoop_digits (s0 s : string) (n : Z) :
  str_forall isDigit s = true ->
  0 <= n <= 4294967295 ->
  Strconv.parseUintLoop s0 4294967295 1844674407370955162 n s
  = if Spec.decimal n s <=? 4294967295
    then (Spec.decimal n s, None)
    else (4294967295, Some (Strconv.rangeError "ParseUint" s0)).
Proof.
  revert n. induction s as [|c s IH]; intros n H Hn; simpl.
  - destruct (Z.leb_spec n 4294967295); [reflexivity|lia].
  - simpl in H. apply andb_true_iff in H as [Hc Hs]. rewrite Hc.
    apply isDigit_spec in Hc.
    destruct (Z.leb_spec 1844674407370955162 n); [lia|].
    rewrite (uint64_small (n * 10)) by lia.
    rewrite (uint64_small (n * 10 + (byte_val c - 48))) by lia.
    destruct (Z.ltb_spec (n * 10 + (byte_val c - 48)) (n * 10)); [lia|].
    simpl.
    destruct (Z.ltb_spec 4294967295 (n * 10 + (byte_val c - 48))) as [Hbig|Hok].
    + pose proof (decimal_ge s (n * 10 + (byte_val c - 48)) Hs ltac:(lia)).
      destruct (Z.leb_spec (Spec.decimal (n * 10 + (byte_val c - 48)) s) 4294967295);
        [lia|reflexivity].
    + apply IH; [assumption|lia].
Qed.

Lemma ParseUint_digits (s : string) :
  s <> EmptyString ->
  str_forall isDigit s = true ->
  Strconv.ParseUint s 32
  = if Spec.decimal 0 s <=? 4294967295
    then (Spec.decimal 0 s, None)
    else (4294967295, Some (Strconv.rangeError "ParseUint" s)).
Proof.
  intros Hne H. unfold Strconv.ParseUint.
  destruct s as [|c r]; [congruence|].
  change (GoInt.maxUint64 / 10 + 1) with 1844674407370955162.
  change (2 ^ 32 - 1) with 4294967295.
  apply parseUintLoop_digits; [assumption|lia].
Qed.

(** [ParseInt] with bit size 32 on a non-empty string of digits: the
    value when it is below [2^31], a range error otherwise. *)
Lemma ParseInt_digits (s : string) :
  s <> EmptyString ->
  str_forall isDigit s = true ->
  Strconv.ParseInt s 32
  = if Spec.decimal 0 s <? 2147483648
    then (Spec.decimal 0 s, None)
    else (2147483647, Some (Strconv.rangeError "ParseInt" s)).
Proof.
  intros Hne H.
  pose proof (decimal_ge s 0 H ltac:(lia)) as Hge.
  unfold Strconv.ParseInt.
  destruct s as [|c r] eqn:Es; [congruence|]. rewrite <- Es in *.
  assert (Hc : isDigit c = true).
  { rewrite Es in H. simpl in H. now apply andb_true_iff in H as [Hc _]. }
  apply isDigit_spec in Hc.
  destruct (Z.eqb_spec (byte_val c) 43); [lia|].
  destruct (Z.eqb_spec (byte_val c) 45); [lia|].
  rewrite (ParseUint_digits s Hne H).
  change (2 ^ (32 - 1)) with 2147483648.
  destruct (Z.leb_spec (Spec.decimal 0 s) 4294967295) as [Hfit|Hbig]; simpl.
  - destruct (Z.leb_spec 2147483648 (Spec.decimal 0 s));
      destruct (Z.ltb_spec (Spec.decimal 0 s) 2147483648); try lia.
    + reflexivity.
    + now rewrite int64_small by lia.
  - destruct (Z.ltb_spec (Spec.decimal 0 s) 2147483648); [lia|reflexivity].
Qed.

Lemma formatBits_digits (fuel : nat) (u : Z) (acc : string) :
  str_forall isDigit acc = true ->
  str_forall isDigit (Strconv.formatBits fuel u acc) = true.
Proof.
  revert u acc. induction fuel as [|fuel IH]; intros u acc Hacc; simpl;
    [assumption|].
  assert (Hd : str_forall isDigit
                 (String (ascii_of_N (Z.to_N (48 + u mod 10))) acc) = true).
  { cbn [str_forall]. rewrite Hacc, andb_true_r. apply isDigit_spec.
    rewrite byte_val_digit by (apply Z.mod_pos_bound; lia).
    pose proof (Z.mod_pos_bound u 10). lia. }
  destruct (u / 10 =? 0); [assumption|now apply IH].
Qed.

Lemma formatBits_nonempty (fuel : nat) (u : Z) (acc : string) :
  (0 < fuel)%nat -> Strconv.formatBits fuel u acc <> EmptyString.
Proof.
  revert u acc. induction fuel as [|fuel IH]; intros u acc Hf; [lia|].
  simpl. destruct (u / 10 =? 0); [discriminate|].
  destruct fuel as [|fuel']; [discriminate|].
  apply IH. lia.
Qed.

Lemma formatBits_decimal (fuel : nat) (u : Z) (acc : string) :
  0 <= u < 10 ^ Z.of_nat fuel ->
  Spec.decimal 0 (Strconv.formatBits fuel u acc) = Spec.decimal u acc.
Proof.
  revert u acc. induction fuel as [|fuel IH]; intros u acc Hu.
  - simpl in *. now replace u with 0 by lia.
  - rewrite Nat2Z.inj_succ, Z.pow_succ_r in Hu by lia.
    pose proof (Z.mod_pos_bound u 10 ltac:(lia)) as Hm.
    pose proof (Z.div_mod u 10 ltac:(lia)) as Hdm.
    cbn [Strconv.formatBits].
    destruct (Z.eqb_spec (u / 10) 0) as [Hz|Hnz].
    + cbn [Spec.decimal]. rewrite byte_val_digit by lia. f_equal. lia.
    + rewrite IH.
      * cbn [Spec.decimal]. rewrite byte_val_digit by lia. f_equal. lia.
      * split; [apply Z.div_pos; lia|].
        apply Z.div_lt_upper_bound; lia.
Qed.

Lemma Itoa_digits (v : Z) :
  0 <= v -> str_forall isDigit (Strconv.Itoa v) = true.
Proof.
  intros H. unfold Strconv.Itoa.
  destruct (Z.ltb_spec v 0); [lia|]. now apply formatBits_digits.
Qed.

Lemma Itoa_nonempty (v : Z) : Strconv.Itoa v <> EmptyString.
Proof.
  unfold Strconv.Itoa. destruct (v <? 0); [discriminate|].
  apply formatBits_nonempty. lia.
Qed.

Lemma Itoa_decimal (v : Z) :
  0 <= v < 2 ^ 63 -> Spec.decimal 0 (Strconv.Itoa v) = v.
Proof.
  intros H. unfold Strconv.Itoa.
  destruct (Z.ltb_spec v 0); [lia|].
  rewrite formatBits_decimal; [reflexivity|].
  change (2 ^ 63) with 9223372036854775808 in H.
  change (10 ^ Z.of_nat 20) with 100000000000000000000. lia.
Qed.

End StrconvFacts.

(** ** channelToFrequency *)

Lemma channelToFrequency_range (channel : Z) :
  0 <= channelToFrequency channel <= 2484.
Proof.
  unfold channelToFrequency.
  destruct (Z.leb_spec channel 0); [lia|].
  destruct (Z.eqb_spec channel 14); [lia|].
  destruct (Z.ltb_spec channel 14); [|lia].
  rewrite !int64_small; rewrite ?int64_small; lia.
Qed.

(** C4. The mapper is a total function on the integers: 0 for every
    channel at most 0, 2484 for channel 14, 2407 + 5c for a channel c from
    1 to 13, and 0 for every channel from 15 on. *)
Theorem channelToFrequency_cases (c : Z) :
  (c <= 0 -> channelToFrequency c = 0) /\
  (c = 14 -> channelToFrequency c = 2484) /\
  (1 <= c < 14 -> channelToFrequency c = 2407 + 5 * c) /\
  (15 <= c -> channelToFrequency c = 0).
Proof.
  unfold channelToFrequency. repeat split; intros H.
  - destruct (Z.leb_spec c 0); [reflexivity|lia].
  - subst c. reflexivity.
  - destruct (Z.leb_spec c 0); [lia|].
    destruct (Z.eqb_spec c 14); [lia|].
    destruct (Z.ltb_spec c 14); [|lia].
    rewrite !int64_small; rewrite ?int64_small; lia.
  - destruct (Z.leb_spec c 0); [lia|].
    destruct (Z.eqb_spec c 14); [lia|].
    destruct (Z.ltb_spec c 14); [lia|reflexivity].
Qed.

Lemma channelToFrequency_cases_witness :
  channelToFrequency (-1) = 0 /\
  channelToFrequency 14 = 2484 /\
  channelToFrequency 6 = 2407 + 5 * 6 /\
  channelToFrequency 15 = 0.
Proof.
  split; [|split; [|split]].
  - destruct (channelToFrequency_cases (-1)) as (H & _). apply H. lia.
  - destruct (channelToFrequency_cases 14) as (_ & H & _). apply H. reflexivity.
  - destruct (channelToFrequency_cases 6) as (_ & _ & H & _). apply H. lia.
  - destruct (channelToFrequency_cases 15) as (_ & _ & _ & H). apply H. lia.
Defined.

(** ** parseChannelsString *)

Section ParserFacts.

Lemma parsePart_digits (ret : list Z) (out : list Output) (tok : string) :
  str_forall isDigit tok = true ->
  parsePart (ret, out) tok
  = (ret ++ Spec.tokenValue tok, out ++ Spec.tokenWarning tok).
Proof.
  intros H. unfold Spec.tokenValue, Spec.tokenWarning, Spec.overflows.
  change (2 ^ 31) with 2147483648.
  destruct tok as [|c r] eqn:E.
  - simpl. now rewrite !app_nil_r.
  - rewrite <- E in *. unfold parsePart.
    assert (Hne : tok <> EmptyString) by (rewrite E; discriminate).
    rewrite (ParseInt_digits tok Hne H).
    pose proof (decimal_ge tok 0 H ltac:(lia)) as Hge.
    replace (Spec.isEmpty tok) with false by (rewrite E; reflexivity).
    cbn [negb andb orb].
    destruct (Z.ltb_spec (Spec.decimal 0 tok) 2147483648);
      destruct (Z.leb_spec 2147483648 (Spec.decimal 0 tok)); try lia.
    + rewrite E at 1. cbn [orb]. rewrite app_nil_r.
      destruct (Spec.decimal 0 tok =? 0); [now rewrite app_nil_r|].
      now rewrite int64_small by lia.
    + rewrite E at 1. cbn [orb]. now rewrite app_nil_r.
Qed.

Lemma fold_parsePart (toks : list string) (ret : list Z) (out : list Output) :
  Forall (fun t => str_forall isDigit t = true) toks ->
  fold_left parsePart toks (ret, out)
  = (ret ++ flat_map Spec.tokenValue toks,
     out ++ flat_map Spec.tokenWarning toks).
Proof.
  intros H. revert ret out.
  induction H as [|t toks Ht _ IH]; intros ret out; cbn [fold_left flat_map].
  - now rewrite !app_nil_r.
  - rewrite (parsePart_digits _ _ _ Ht), IH, <- !app_assoc. reflexivity.
Qed.

Lemma parseParts_digits (toks : list string) :
  Forall (fun t => str_forall isDigit t = true) toks ->
  parseParts toks
  = (flat_map Spec.tokenValue toks, flat_map Spec.tokenWarning toks).
Proof. intros H. unfold parseParts. now rewrite fold_parsePart. Qed.

Lemma parts_tokens (input : string) : parts input = Spec.tokens input.
Proof. unfold parts. now rewrite ReplaceAllString_strip. Qed.

Lemma parseChannelsString_parts (input : string) :
  parseChannelsString input
  = (fst (parseParts (parts input)), None, snd (parseParts (parts input))).
Proof.
  unfold parseChannelsString, parseParts, parts.
  now destruct (fold_left _ _ _).
Qed.

(** The code computes what the specification describes, values and
    warnings. *)
Lemma parseChannelsString_refines (input : string) :
  parseChannelsString input = (Spec.parse input, None, Spec.warnings input).
Proof.
  rewrite parseChannelsString_parts, parts_tokens.
  now rewrite (parseParts_digits _ (tokens_digits input)).
Qed.

Lemma parsed_spec (input : string) : parsed input = Spec.parse input.
Proof. unfold parsed. now rewrite parseChannelsString_refines. Qed.

Lemma parse_warnings_spec (input : string) :
  parse_warnings input = Spec.warnings input.
Proof. unfold parse_warnings. now rewrite parseChannelsString_refines. Qed.

Lemma tokenValue_range (tok : string) (v : Z) :
  str_forall isDigit tok = true ->
  In v (Spec.tokenValue tok) -> 1 <= v < 2147483648.
Proof.
  intros H. unfold Spec.tokenValue, Spec.overflows.
  change (2 ^ 31) with 2147483648.
  pose proof (decimal_ge tok 0 H ltac:(lia)) as Hge.
  destruct (Spec.isEmpty tok); [intros []|]. cbn [negb andb orb].
  destruct (Z.leb_spec 2147483648 (Spec.decimal 0 tok)); [intros []|].
  cbn [orb].
  destruct (Z.eqb_spec (Spec.decimal 0 tok) 0); [intros []|].
  intros [<-|[]]. lia.
Qed.

Lemma parse_range (input : string) :
  Forall (fun v => 1 <= v < 2147483648) (Spec.parse input).
Proof.
  apply Forall_forall. intros v Hv. unfold Spec.parse in Hv.
  apply in_flat_map in Hv as (tok & Htok & Hv).
  pose proof (tokens_digits input) as Hd.
  rewrite Forall_forall in Hd.
  exact (tokenValue_range tok v (Hd _ Htok) Hv).
Qed.

Lemma tokenValue_Itoa (v : Z) :
  1 <= v < 2147483648 -> Spec.tokenValue (Strconv.Itoa v) = [v].
Proof.
  intros H. unfold Spec.tokenValue, Spec.overflows.
  change (2 ^ 31) with 2147483648.
  rewrite Itoa_decimal by (change (2 ^ 63) with 9223372036854775808; lia).
  pose proof (Itoa_nonempty v) as Hne.
  destruct (Strconv.Itoa v); [congruence|]. cbn [Spec.isEmpty negb andb orb].
  destruct (Z.leb_spec 2147483648 v); [lia|].
  destruct (Z.eqb_spec v 0); [lia|reflexivity].
Qed.

Lemma Join_keep (toks : list string) :
  Forall (fun t => str_forall isDigit t = true) toks ->
  str_forall Spec.keep (Strings.Join toks) = true.
Proof.
  assert (Hk : forall t, str_forall isDigit t = true ->
                         str_forall Spec.keep t = true).
  { intros t. apply str_forall_impl. intros c Hc.
    unfold Spec.keep. now rewrite Hc. }
  induction toks as [|t toks IH]; intros H; [reflexivity|].
  inversion H as [|? ? Ht Htoks]; subst.
  destruct toks as [|t' toks]; [now apply Hk|].
  change (Strings.Join (t :: t' :: toks))
    with (t ++ String comma (Strings.Join (t' :: toks)))%string.
  rewrite str_forall_app, (Hk _ Ht). cbn [str_forall andb].
  now rewrite (IH Htoks).
Qed.

(** Parsing the decimal writing of a list of channel numbers that fit
    32 bits gives the list back. *)
Lemma parse_unparse (l : list Z) :
  Forall (fun v => 1 <= v < 2147483648) l ->
  Spec.parse (Spec.unparse l) = l.
Proof.
  intros H. destruct l as [|v l]; [reflexivity|].
  assert (Hd : Forall (fun t => str_forall isDigit t = true)
                      (map Strconv.Itoa (v :: l))).
  { apply Forall_map. eapply Forall_impl; [|exact H].
    intros a Ha. cbv beta in Ha. apply Itoa_digits. lia. }
  unfold Spec.parse, Spec.tokens, Spec.unparse, Spec.strip.
  rewrite str_filter_id by now apply Join_keep.
  rewrite Split_Join.
  - clear Hd. induction H as [|a l' Ha _ IH]; [reflexivity|].
    cbn [map flat_map]. now rewrite (tokenValue_Itoa _ Ha), IH.
  - discriminate.
  - eapply Forall_impl; [|exact Hd].
    intros t. apply str_forall_impl. intros c Hc.
    now rewrite (digit_not_comma _ Hc).
Qed.

End ParserFacts.

(** C3. The parser strips every byte that is not an ASCII digit or a
    comma (keeping the order), splits on commas, skips the empty tokens
    and the tokens equal to zero and keeps the other values, duplicates
    included, in input order; the nine examples of the test suite hold. *)
Theorem parseChannelsString_behaviour :
  (forall input,
     Regexp.ReplaceAllString input "" = str_filter Spec.keep input) /\
  (forall input,
     parsed input
     = flat_map Spec.tokenValue (Strings.Split (str_filter Spec.keep input))) /\
  parsed "1,2,3" = [1; 2; 3] /\
  parsed "0" = [] /\
  parsed "1,," = [1] /\
  parsed ",,3" = [3] /\
  parsed ",," = [] /\
  parsed "asd1,2,3" = [1; 2; 3] /\
  parsed "1asd,2,3" = [1; 2; 3] /\
  parsed "1a,sd2,3" = [1; 2; 3] /\
  parsed "1 2 3" = [123] /\
  parsed "6,1,6,0,1" = [6; 1; 6; 1].
Proof.
  split; [exact ReplaceAllString_strip|].
  split; [exact parsed_spec|].
  repeat split; vm_compute; reflexivity.
Qed.

(** C8. A token whose digits write a number that does not fit a signed
    32-bit integer makes [ParseInt] fail with a range error; the parser
    writes its two warning lines for it, leaves it out of the result and
    treats the tokens before and after it as if it were not there; the
    parser itself returns no error. *)
Theorem overflow_token_skipped
  (input : string) (pre post : list string) (t : string) :
  parts input = pre ++ t :: post ->
  2 ^ 31 <= Spec.decimal 0 t ->
  Strconv.ParseInt t 32
  = (2 ^ 31 - 1, Some (Strconv.rangeError "ParseInt" t)) /\
  parsed input = fst (parseParts pre) ++ fst (parseParts post) /\
  parse_warnings input
  = snd (parseParts pre)
    ++ [WarnParsing (Strconv.rangeError "ParseInt" t); WarnPleaseReport]
    ++ snd (parseParts post) /\
  snd (fst (parseChannelsString input)) = None.
Proof.
  intros Hparts Hbig. change (2 ^ 31) with 2147483648 in *.
  pose proof (tokens_digits input) as Hd.
  rewrite <- parts_tokens, Hparts in Hd.
  apply Forall_app in Hd as [Hpre Hd].
  inversion Hd as [|? ? Ht Hpost]; subst.
  assert (Hne : t <> EmptyString).
  { intros ->. simpl in Hbig. lia. }
  assert (Hov : Spec.overflows t = true).
  { unfold Spec.overflows. change (2 ^ 31) with 2147483648.
    destruct t; [congruence|]. cbn [Spec.isEmpty negb andb].
    now apply Z.leb_le. }
  split; [|split; [|split]].
  - rewrite (ParseInt_digits t Hne Ht).
    destruct (Z.ltb_spec (Spec.decimal 0 t) 2147483648); [lia|reflexivity].
  - rewrite parsed_spec. unfold Spec.parse.
    rewrite <- parts_tokens, Hparts, flat_map_app. cbn [flat_map].
    rewrite !parseParts_digits by assumption. cbn [fst].
    unfold Spec.tokenValue at 2. rewrite Hov, orb_true_r. reflexivity.
  - rewrite parse_warnings_spec. unfold Spec.warnings.
    rewrite <- parts_tokens, Hparts, flat_map_app. cbn [flat_map].
    rewrite !parseParts_digits by assumption. cbn [snd].
    unfold Spec.tokenWarning at 2. rewrite Hov. reflexivity.
  - now rewrite parseChannelsString_refines.
Qed.

Lemma overflow_token_skipped_witness :
  parsed "1,2147483648,3" = [1] ++ [3] /\
  parse_warnings "1,2147483648,3"
  = [] ++ [WarnParsing (Strconv.rangeError "ParseInt" "2147483648");
           WarnPleaseReport] ++ [].
Proof.
  destruct (overflow_token_skipped "1,2147483648,3" ["1"] ["3"] "2147483648")
    as (_ & Hv & Hw & _).
  - reflexivity.
  - vm_compute. discriminate.
  - split; [exact Hv|exact Hw].
Defined.

Lemma strip_no_minus (input : string) :
  str_forall (fun c => negb (byte_val c =? 45))
             (Regexp.ReplaceAllString input "") = true.
Proof.
  rewrite ReplaceAllString_strip. unfold Spec.strip.
  apply str_forall_impl with (p := Spec.keep); [|apply str_forall_filter].
  intros c Hc. unfold Spec.keep in Hc. apply orb_true_iff in Hc as [Hc|Hc].
  - apply isDigit_spec in Hc. destruct (Z.eqb_spec (byte_val c) 45); [lia|easy].
  - apply isComma_spec in Hc. destruct (Z.eqb_spec (byte_val c) 45); [lia|easy].
Qed.

(** C10. Every element of the parser's output is a strictly positive
    integer (no minus sign survives the stripping, zeros are skipped), and
    the parser is the identity on its own output: writing the elements in
    decimal, joined by commas, and parsing again gives the same list. *)
Theorem parsed_positive_roundtrip (input : string) :
  Forall (fun v => 0 < v) (parsed input) /\
  str_forall (fun c => negb (byte_val c =? 45))
             (Regexp.ReplaceAllString input "") = true /\
  parsed (Strings.Join (map Strconv.Itoa (parsed input))) = parsed input.
Proof.
  pose proof (parse_range input) as Hr.
  split; [|split].
  - rewrite parsed_spec. eapply Forall_impl; [|exact Hr].
    intros v Hv. cbv beta in Hv. lia.
  - apply strip_no_minus.
  - rewrite (parsed_spec input). rewrite parsed_spec.
    exact (parse_unparse _ Hr).
Qed.

(** ** The hop loop *)

Section HopLoopFacts.

Variable env : Env.
Variable cfg : Setup.

Lemma len_nonneg {A} (l : list A) : 0 <= len l.
Proof. unfold len. lia. Qed.

Lemma len_pos {A} (l : list A) : l <> [] -> 0 < len l.
Proof. unfold len. destruct l; [congruence|simpl; lia]. Qed.

Lemma index_nth {A} (l : list A) (i : Z) (d : A) :
  0 <= i < len l -> index l i = Some (nth (Z.to_nat i) l d).
Proof.
  intros H. unfold index.
  destruct (Z.ltb_spec i 0); [lia|].
  destruct (Z.leb_spec (len l) i); [lia|]. cbn [orb].
  apply nth_error_nth'. unfold len in H. lia.
Qed.

Lemma hops_S (n : nat) (p : Proc) :
  hops env cfg (S n) p = hop env cfg true (hops env cfg n p).
Proof.
  revert p. induction n as [|n IH]; intros p; [reflexivity|].
  change (hops env cfg (S (S n)) p)
    with (hops env cfg (S n) (hop env cfg true p)).
  now rewrite IH.
Qed.

(** [idx++; if idx >= len(channels) { idx = 0 }] is the successor modulo
    the length. *)
Lemma wrap_succ (L i : Z) :
  0 <= i < L -> (if L <=? i + 1 then 0 else i + 1) = (i + 1) mod L.
Proof.
  intros H. destruct (Z.leb_spec L (i + 1)).
  - replace (i + 1) with L by lia. now rewrite Z.mod_same by lia.
  - now rewrite Z.mod_small by lia.
Qed.

Lemma succ_mod (L k : Z) :
  0 < L -> (k mod L + 1) mod L = (k + 1) mod L.
Proof.
  intros H. rewrite <- (Zplus_mod_idemp_l k 1 L). reflexivity.
Qed.

(** One iteration from a state at the loop head whose cursor is valid. *)
Lemma hop_body (p : Proc) (channel : Z) :
  status p = Looping ->
  index (channels cfg) (idx p) = Some channel ->
  MarshalAttributes env (attributes cfg channel) = None ->
  hop env cfg true p
  = match Execute env (List.length (calls p)) (setChannel cfg channel) with
    | Some err =>
        {| idx := idx p;
           stderr := stderr p ++ [CannotSetChannel channel; ErrorLine err];
           calls := calls p ++ [setChannel cfg channel];
           sleeps := sleeps p;
           status := Exited 1 |}
    | None =>
        {| idx := if len (channels cfg) <=? GoInt.int64 (idx p + 1)
                  then 0 else GoInt.int64 (idx p + 1);
           stderr := stderr p;
           calls := calls p ++ [setChannel cfg channel];
           sleeps := sleeps p ++ [GoTime.Duration (hopDelay cfg) GoTime.Millisecond];
           status := Looping |}
    end.
Proof.
  intros Hst Hidx Hm. unfold hop. now rewrite Hst, Hidx, Hm.
Qed.

(** A process that has left the loop does nothing more. *)
Lemma hop_stopped (running : bool) (p : Proc) :
  status p <> Looping -> hop env cfg running p = p.
Proof. intros H. unfold hop. destruct (status p); congruence. Qed.

Lemma hops_stopped (n : nat) (p : Proc) :
  status p <> Looping -> hops env cfg n p = p.
Proof.
  intros H. induction n as [|n IH]; [reflexivity|].
  now rewrite hops_S, IH, hop_stopped.
Qed.

Hypothesis nonempty : channels cfg <> [].
Hypothesis fits : len (channels cfg) <= GoInt.maxInt64.

Lemma cursor_valid (k : nat) :
  0 <= Z.of_nat k mod len (channels cfg) < len (channels cfg).
Proof. apply Z.mod_pos_bound. now apply len_pos. Qed.

Lemma afterTicks_hop (out : list Output) (k : nat) :
  tickOk env cfg k ->
  hop env cfg true (afterTicks cfg out k) = afterTicks cfg out (S k).
Proof.
  intros [Hm He].
  pose proof (cursor_valid k) as Hk.
  unfold GoInt.maxInt64 in fits. change (2 ^ 63 - 1) with 9223372036854775807 in fits.
  rewrite (hop_body _ (channelAt cfg k)); [| reflexivity | | exact Hm].
  - cbn [afterTicks calls idx stderr sleeps].
    rewrite length_map, length_seq, He.
    rewrite int64_small by lia. rewrite wrap_succ by exact Hk.
    rewrite succ_mod by now apply len_pos.
    unfold afterTicks. f_equal.
    + f_equal. lia.
    + rewrite seq_S, map_app. reflexivity.
    + change (S k) with (1 + k)%nat.
      rewrite Nat.add_comm, repeat_app. reflexivity.
  - cbn [afterTicks idx]. unfold channelAt. now apply index_nth.
Qed.

Lemma hops_afterTicks (out : list Output) (n : nat) :
  (forall k, (k < n)%nat -> tickOk env cfg k) ->
  hops env cfg n (start out) = afterTicks cfg out n.
Proof.
  induction n as [|n IH]; intros Hok.
  - unfold afterTicks, start. cbn [hops seq map repeat].
    now rewrite Z.mod_0_l by (pose proof (len_pos _ nonempty); lia).
  - rewrite hops_S, IH by (intros k Hk; apply Hok; lia).
    apply afterTicks_hop. apply Hok. lia.
Qed.

Lemma channelAt_periodic (k : nat) :
  channelAt cfg (k + List.length (channels cfg)) = channelAt cfg k.
Proof.
  unfold channelAt. f_equal. f_equal.
  rewrite Nat2Z.inj_add. fold (len (channels cfg)).
  rewrite <- (Z.mul_1_l (len (channels cfg))) at 1.
  apply Z.mod_add. pose proof (len_pos _ nonempty). lia.
Qed.

Lemma wiphyFreq_setChannel (channel : Z) :
  wiphyFreq (Genetlink.msg (setChannel cfg channel))
  = Some (channelToFrequency channel).
Proof.
  unfold wiphyFreq. cbn.
  rewrite uint32_small; [reflexivity|].
  pose proof (channelToFrequency_range channel). lia.
Qed.

End HopLoopFacts.

(** C1. For a non-empty channel list, whatever the delay, the cursor
    starts at 0; as long as the ticks succeed the loop goes on, the cursor
    is a valid index of the list, each tick moves it to its successor
    modulo the length of the list, the command of tick [n] carries the
    frequency that the mapper gives for the channel under the cursor, and
    cursor and channel come back after as many ticks as the list is
    long. *)
Theorem hop_cursor_cycle
  (env : Env) (cfg : Setup) (out : list Output) (m : nat) :
  channels cfg <> [] ->
  len (channels cfg) <= GoInt.maxInt64 ->
  (forall k : nat, (k < m)%nat -> tickOk env cfg k) ->
  let L := len (channels cfg) in
  let at_ n := hops env cfg n (start out) in
  idx (at_ O) = 0 /\
  (forall n : nat, (n <= m)%nat ->
     status (at_ n) = Looping /\
     0 <= idx (at_ n) < L /\
     idx (at_ n) = Z.of_nat n mod L /\
     index (channels cfg) (idx (at_ n)) = Some (channelAt cfg n)) /\
  (forall n : nat, (n < m)%nat ->
     idx (at_ (S n)) = (idx (at_ n) + 1) mod L /\
     calls (at_ (S n)) = calls (at_ n) ++ [setChannel cfg (channelAt cfg n)] /\
     wiphyFreq (Genetlink.msg (setChannel cfg (channelAt cfg n)))
     = Some (channelToFrequency (channelAt cfg n))) /\
  (forall n : nat, (n + List.length (channels cfg) <= m)%nat ->
     idx (at_ (n + List.length (channels cfg))%nat) = idx (at_ n) /\
     channelAt cfg (n + List.length (channels cfg))%nat = channelAt cfg n).
Proof.
  intros Hne Hfit Hok L at_.
  assert (Hat : forall n, (n <= m)%nat -> at_ n = afterTicks cfg out n).
  { intros n Hn. apply hops_afterTicks; try assumption.
    intros k Hk. apply Hok. lia. }
  split; [reflexivity|]. split; [|split].
  - intros n Hn. rewrite (Hat n Hn). cbn [afterTicks status idx].
    pose proof (cursor_valid cfg Hne n) as Hv.
    repeat split; try apply Hv.
    unfold channelAt. now apply index_nth.
  - intros n Hn. rewrite (Hat n), (Hat (S n)) by lia.
    cbn [afterTicks idx calls]. split; [|split].
    + rewrite succ_mod by now apply len_pos. f_equal. lia.
    + now rewrite seq_S, map_app.
    + apply wiphyFreq_setChannel.
  - intros n Hn. rewrite (Hat n), (Hat _ Hn) by lia.
    cbn [afterTicks idx]. split; [|now apply channelAt_periodic].
    rewrite Nat2Z.inj_add. fold (len (channels cfg)). fold L.
    rewrite <- (Z.mul_1_l L) at 1. apply Z.mod_add.
    pose proof (len_pos _ Hne). lia.
Qed.

Lemma hop_cursor_cycle_witness :
  idx (hops kernelOk (setupOf [1; 6; 11]) 7 (start [])) = 7 mod 3 /\
  index [1; 6; 11] (idx (hops kernelOk (setupOf [1; 6; 11]) 7 (start [])))
  = Some 6.
Proof.
  destruct (hop_cursor_cycle kernelOk (setupOf [1; 6; 11]) [] 7)
    as (_ & H & _).
  - discriminate.
  - vm_compute. discriminate.
  - intros k _. split; reflexivity.
  - destruct (H 7%nat (le_n _)) as (_ & _ & Hi & Hc).
    split; [exact Hi|exact Hc].
Defined.

Lemma step_stopped (env : Env) (cfg : Setup) (s : Sys) (ev : Event) :
  status (proc s) <> Looping -> step env cfg s ev = s.
Proof. intros H. unfold step. destruct (status (proc s)); congruence. Qed.

Lemma run_stopped (env : Env) (cfg : Setup) (evs : list Event) (s : Sys) :
  status (proc s) <> Looping -> run env cfg evs s = s.
Proof.
  intros H. unfold run. induction evs as [|ev evs IH]; [reflexivity|].
  cbn [fold_left]. now rewrite step_stopped.
Qed.

(** C6. When the kernel refuses the command of a tick, the process writes
    the channel it could not set and the error, and exits with status 1;
    the command was submitted once, the cursor has not moved, no delay
    follows, and nothing happens afterwards, whatever is scheduled. *)
Theorem transport_failure_is_fatal
  (env : Env) (cfg : Setup) (p : Proc) (channel : Z) (err : error) :
  status p = Looping ->
  index (channels cfg) (idx p) = Some channel ->
  MarshalAttributes env (attributes cfg channel) = None ->
  Execute env (List.length (calls p)) (setChannel cfg channel) = Some err ->
  let p' := hop env cfg true p in
  status p' = Exited 1 /\
  stderr p' = stderr p ++ [CannotSetChannel channel; ErrorLine err] /\
  calls p' = calls p ++ [setChannel cfg channel] /\
  idx p' = idx p /\
  sleeps p' = sleeps p /\
  (forall running, hop env cfg running p' = p') /\
  (forall n, hops env cfg n p' = p') /\
  (forall s evs, proc s = p' -> proc (run env cfg evs s) = p').
Proof.
  intros Hst Hidx Hm He p'.
  assert (E : p' = {| idx := idx p;
                      stderr := stderr p ++ [CannotSetChannel channel; ErrorLine err];
                      calls := calls p ++ [setChannel cfg channel];
                      sleeps := sleeps p;
                      status := Exited 1 |}).
  { unfold p'. rewrite (hop_body env cfg p channel Hst Hidx Hm), He. reflexivity. }
  assert (Hdead : status p' <> Looping) by (rewrite E; discriminate).
  split; [|split; [|split; [|split; [|split; [|split; [|split]]]]]];
    try (rewrite E; reflexivity).
  - intros n. now apply hops_stopped.
  - intros s evs Hs. rewrite run_stopped; [assumption|]. now rewrite Hs.
Qed.

Lemma transport_failure_is_fatal_witness :
  let env := kernelFailsAt 0 "operation not permitted" in
  let p' := hop env (setupOf [1; 6; 11]) true (start []) in
  status p' = Exited 1 /\
  stderr p' = [CannotSetChannel 1; ErrorLine "operation not permitted"] /\
  idx p' = 0.
Proof.
  intros env p'.
  destruct (transport_failure_is_fatal env (setupOf [1; 6; 11]) (start []) 1
              "operation not permitted")
    as (Hs & Ho & _ & Hi & _); try reflexivity.
  split; [exact Hs|]. split; [exact Ho|exact Hi].
Defined.

(** C2 as stated does not hold: channel 15 passes the parser, maps to
    frequency 0, and with a kernel that acknowledges the command the hop
    submits it and goes on. *)
Lemma zero_frequency_hop_counterexample :
  main kernelOk (flagsOf "15" 0 ["interface"; "channels"])
  = BootLoop (setupOf [15]) (sys0 NoTimer) /\
  ~ zeroHopGuarded kernelOk (setupOf [15]) (proc (sys0 NoTimer)).
Proof.
  split; [reflexivity|].
  intros H. specialize (H 15 eq_refl eq_refl eq_refl).
  destruct H as [H|[(code & H & _)|H]]; vm_compute in H; discriminate.
Qed.

(** C2, amended.  When the channel under the cursor maps to frequency 0,
    the loop submits the command all the same, carrying frequency 0; the
    hop fails (the two error lines, exit status 1) exactly when the
    kernel refuses the command, and otherwise the loop goes on with
    nothing written. *)
Theorem zero_frequency_is_submitted
  (env : Env) (cfg : Setup) (p : Proc) (channel : Z) :
  status p = Looping ->
  index (channels cfg) (idx p) = Some channel ->
  channelToFrequency channel = 0 ->
  MarshalAttributes env (attributes cfg channel) = None ->
  let p' := hop env cfg true p in
  let call := setChannel cfg channel in
  calls p' = calls p ++ [call] /\
  wiphyFreq (Genetlink.msg call) = Some 0 /\
  (Execute env (List.length (calls p)) call = None ->
     status p' = Looping /\ stderr p' = stderr p) /\
  (forall err,
     Execute env (List.length (calls p)) call = Some err ->
     status p' = Exited 1 /\
     stderr p' = stderr p ++ [CannotSetChannel channel; ErrorLine err]).
Proof.
  intros Hst Hidx Hz Hm p' call. unfold p'.
  rewrite (hop_body env cfg p channel Hst Hidx Hm). fold call.
  split; [|split; [|split]].
  - destruct (Execute env _ call); reflexivity.
  - unfold call. now rewrite wiphyFreq_setChannel, Hz.
  - intros ->. split; reflexivity.
  - intros err ->. split; reflexivity.
Qed.

Lemma zero_frequency_is_submitted_witness :
  let p' := hop kernelOk (setupOf [15]) true (start []) in
  calls p' = [setChannel (setupOf [15]) 15] /\
  wiphyFreq (Genetlink.msg (setChannel (setupOf [15]) 15)) = Some 0 /\
  status p' = Looping.
Proof.
  intros p'.
  destruct (zero_frequency_is_submitted kernelOk (setupOf [15]) (start []) 15)
    as (Hc & Hf & Hok & _); try reflexivity.
  split; [exact Hc|]. split; [exact Hf|].
  apply Hok. reflexivity.
Defined.

(** ** Termination: the [running] flag *)

Section TerminationFacts.

Variable env : Env.
Variable cfg : Setup.

(** No step writes [true] to [running]. *)
Lemma step_running_false (s : Sys) (ev : Event) :
  running s = false -> running (step env cfg s ev) = false.
Proof.
  intros H. unfold step.
  destruct (status (proc s)); try assumption.
  destruct ev.
  - destruct (hasRoom (quit s)); cbn; assumption.
  - destruct (timer s); try assumption;
      destruct (hasRoom (quit s)); cbn; assumption.
  - destruct (listener s); [|assumption].
    destruct (quit s); [assumption|reflexivity].
  - assumption.
Qed.

Lemma run_running_false (evs : list Event) (s : Sys) :
  running s = false -> running (run env cfg evs s) = false.
Proof.
  unfold run. revert s.
  induction evs as [|ev evs IH]; intros s H; [assumption|].
  cbn [fold_left]. apply IH. now apply step_running_false.
Qed.

(** Only the main goroutine touches the state of the loop. *)
Lemma step_proc (s : Sys) (ev : Event) :
  isMain ev = false -> proc (step env cfg s ev) = proc s.
Proof.
  intros H. unfold step.
  destruct (status (proc s)); try reflexivity.
  destruct ev; try discriminate.
  - destruct (hasRoom (quit s)); reflexivity.
  - destruct (timer s); try reflexivity;
      destruct (hasRoom (quit s)); reflexivity.
  - destruct (listener s); [|reflexivity].
    destruct (quit s); reflexivity.
Qed.

Lemma run_proc (evs : list Event) (s : Sys) :
  forallb (fun ev => negb (isMain ev)) evs = true ->
  proc (run env cfg evs s) = proc s.
Proof.
  unfold run. revert s.
  induction evs as [|ev evs IH]; intros s H; [reflexivity|].
  cbn [forallb] in H. apply andb_true_iff in H as [Hev Hevs].
  cbn [fold_left]. rewrite (IH _ Hevs).
  apply step_proc. now apply negb_true_iff.
Qed.

Lemma step_main (s : Sys) :
  proc (step env cfg s MainRuns) = hop env cfg (running s) (proc s).
Proof.
  unfold step. destruct (status (proc s)) eqn:E; try reflexivity;
    unfold hop; now rewrite E.
Qed.

Lemma run_app (evs1 evs2 : list Event) (s : Sys) :
  run env cfg (evs1 ++ evs2) s = run env cfg evs2 (run env cfg evs1 s).
Proof. unfold run. apply fold_left_app. Qed.

Lemma hop_false_idem (p : Proc) :
  hop env cfg false (hop env cfg false p) = hop env cfg false p.
Proof.
  unfold hop at 2. destruct (status p) eqn:E; cbn;
    first [reflexivity | unfold hop; now rewrite E].
Qed.

(** Once the flag is down, whatever is scheduled, the loop has done
    nothing but stop. *)
Lemma run_flag_down (evs : list Event) (s : Sys) :
  running s = false ->
  proc (run env cfg evs s)
  = if existsb isMain evs then hop env cfg false (proc s) else proc s.
Proof.
  revert s. induction evs as [|ev evs IH]; intros s H; [reflexivity|].
  change (run env cfg (ev :: evs) s) with (run env cfg evs (step env cfg s ev)).
  rewrite IH by now apply step_running_false.
  cbn [existsb]. destruct (isMain ev) eqn:Eev.
  - destruct ev; try discriminate. rewrite step_main, H. cbn [orb].
    destruct (existsb isMain evs); [apply hop_false_idem|reflexivity].
  - cbn [orb]. now rewrite step_proc.
Qed.

(** A signal on [quit], from the operator or from the timer, makes the
    listening goroutine lower the flag. *)
Lemma signal_lowers_flag (s : Sys) (ev : Event) :
  status (proc s) = Looping ->
  listener s = true ->
  ev = SigInt \/ (ev = TimerRuns /\ exists d, timer s = Armed d) ->
  running (run env cfg [ev; ListenerRuns] s) = false.
Proof.
  intros Hst Hl Hev.
  destruct s as [r q l t [i e c sl st]]. cbn in Hst, Hl, Hev. subst st l.
  destruct Hev as [->|(-> & d & ->)];
    destruct q as [|x [|y q]]; reflexivity.
Qed.

End TerminationFacts.

(** C7. The flag is lowered by the listening goroutine once a signal is
    on [quit], whether the operator's interrupt or the timer's send put
    it there; no step of the program raises it again; once it is down,
    further interrupts and timer sends change nothing for the loop, which
    stops at its next test of the flag; and a flag lowered while a tick
    is under way lets that tick finish, delay included, before the loop
    stops. *)
Theorem termination_flag (env : Env) (cfg : Setup) (s : Sys) :
  status (proc s) = Looping ->
  (listener s = true ->
     running (run env cfg [SigInt; ListenerRuns] s) = false /\
     (forall d, timer s = Armed d ->
        running (run env cfg [TimerRuns; ListenerRuns] s) = false)) /\
  (forall evs, running s = false -> running (run env cfg evs s) = false) /\
  (forall evs, running s = false ->
     proc (run env cfg (evs ++ [MainRuns]) s) = setStatus (proc s) Returned) /\
  (forall evs, forallb (fun ev => negb (isMain ev)) evs = true ->
     running (run env cfg evs (step env cfg s MainRuns)) = false ->
     proc (run env cfg (MainRuns :: evs ++ [MainRuns]) s)
     = hop env cfg false (hop env cfg (running s) (proc s))).
Proof.
  intros Hst. split; [|split; [|split]].
  - intros Hl. split.
    + apply signal_lowers_flag; auto.
    + intros d Hd. apply signal_lowers_flag; eauto.
  - intros evs. apply run_running_false.
  - intros evs Hdown. rewrite run_flag_down by assumption.
    rewrite existsb_app. cbn [existsb isMain]. rewrite !orb_true_r.
    unfold hop. now rewrite Hst.
  - intros evs Hevs Hdown.
    change (run env cfg (MainRuns :: evs ++ [MainRuns]) s)
      with (run env cfg (evs ++ [MainRuns]) (step env cfg s MainRuns)).
    rewrite run_app.
    change (run env cfg [MainRuns] ?x) with (step env cfg x MainRuns).
    rewrite step_main, Hdown, run_proc by assumption.
    now rewrite step_main.
Qed.

Lemma termination_flag_witness :
  running (run kernelOk (setupOf [1; 6; 11]) [SigInt; ListenerRuns]
               (sys0 (Armed 5000000000))) = false /\
  running (run kernelOk (setupOf [1; 6; 11]) [TimerRuns; ListenerRuns]
               (sys0 (Armed 5000000000))) = false /\
  proc (run kernelOk (setupOf [1; 6; 11])
            (MainRuns :: [SigInt; ListenerRuns; SigInt; TimerRuns] ++ [MainRuns])
            (sys0 (Armed 5000000000)))
  = hop kernelOk (setupOf [1; 6; 11]) false
        (hop kernelOk (setupOf [1; 6; 11]) true (start [])).
Proof.
  destruct (termination_flag kernelOk (setupOf [1; 6; 11])
              (sys0 (Armed 5000000000)) eq_refl)
    as (Hset & _ & _ & Htick).
  destruct (Hset eq_refl) as (Hsig & Htimer).
  split; [exact Hsig|]. split; [exact (Htimer _ eq_refl)|].
  apply Htick; reflexivity.
Defined.

(** ** [main]: the channel list and the timeout *)

Lemma len_nil_iff {A} (l : list A) : (len l <=? 0) = true <-> l = [].
Proof.
  unfold len. destruct l; cbn [List.length].
  - split; reflexivity.
  - rewrite Z.leb_le. split; [lia|discriminate].
Qed.

Lemma main_channels (env : Env) (f : Flags) (cfg : Setup) (s : Sys) :
  main env f = BootLoop cfg s ->
  channels cfg
  = if len (parsed (channelsString f)) <=? 0 then defaultChannels
    else parsed (channelsString f).
Proof.
  unfold main, parsed.
  destruct (showHelp f); [discriminate|].
  destruct (showVersion f); [discriminate|].
  destruct (String.eqb (interfaceName f) ""); [discriminate|].
  destruct (armTimeout f) as [out2 tm].
  destruct (parseChannelsString (channelsString f)) as [[channels0 e] out3].
  destruct (checkMonitorInterface env (interfaceName f)); try discriminate.
  destruct (genetlink_Dial env); [discriminate|].
  destruct (GetFamily env); [|discriminate].
  intros [= <- _]. reflexivity.
Qed.

(** C5. Whenever parsing [--channels] gives an empty list (the empty
    string, or a string all of whose tokens are skipped), the loop runs
    over the thirteen default channels; otherwise it runs over the parsed
    list, unchanged. *)
Theorem default_channels (env : Env) (f : Flags) (cfg : Setup) (s : Sys) :
  main env f = BootLoop cfg s ->
  (parsed (channelsString f) = [] ->
     channels cfg = [1; 8; 2; 9; 3; 10; 4; 11; 5; 12; 6; 13; 7]) /\
  (parsed (channelsString f) <> [] ->
     channels cfg = parsed (channelsString f)).
Proof.
  intros Hmain. rewrite (main_channels env f cfg s Hmain).
  split; intros H.
  - now rewrite H.
  - destruct (len (parsed (channelsString f)) <=? 0) eqn:E; [|reflexivity].
    apply len_nil_iff in E. contradiction.
Qed.

Lemma default_channels_witness :
  main kernelOk (flagsOf "" 0 ["interface"])
  = BootLoop (setupOf defaultChannels) (sys0 NoTimer) /\
  channels (setupOf defaultChannels)
  = [1; 8; 2; 9; 3; 10; 4; 11; 5; 12; 6; 13; 7] /\
  main kernelOk (flagsOf "0,,x,00" 0 ["interface"; "channels"])
  = BootLoop (setupOf defaultChannels) (sys0 NoTimer) /\
  main kernelOk (flagsOf "36,1,1" 0 ["interface"; "channels"])
  = BootLoop (setupOf [36; 1; 1]) (sys0 NoTimer) /\
  channels (setupOf [36; 1; 1]) = parsed "36,1,1".
Proof.
  split; [reflexivity|]. split; [|split; [reflexivity|split; [reflexivity|]]].
  - destruct (default_channels kernelOk (flagsOf "" 0 ["interface"])
                (setupOf defaultChannels) (sys0 NoTimer) eq_refl) as (Hd & _).
    apply Hd. reflexivity.
  - destruct (default_channels kernelOk
                (flagsOf "36,1,1" 0 ["interface"; "channels"])
                (setupOf [36; 1; 1]) (sys0 NoTimer) eq_refl) as (_ & Hp).
    apply Hp. vm_compute. discriminate.
Defined.

Lemma isFlagPassed_In (f : Flags) (name : string) :
  isFlagPassed f name = true <-> In name (visited f).
Proof.
  unfold isFlagPassed.
  assert (G : forall l b,
             fold_left (fun found n => if String.eqb n name then true else found) l b
             = true <-> b = true \/ In name l).
  { induction l as [|n l IH]; intros b; cbn [fold_left In].
    - tauto.
    - rewrite IH. destruct (String.eqb_spec n name) as [->|Hn]; [tauto|].
      split; intros [H|H]; auto. destruct H as [H|H]; [congruence|auto]. }
  rewrite G. split; [intros [H|H]; [discriminate|exact H]|auto].
Qed.

(** A timeout passed as zero or less arms no timer and is warned about. *)
Lemma armTimeout_nonpositive (f : Flags) :
  isFlagPassed f "timeout" = true -> timeout f <= 0 ->
  armTimeout f = ([WarnTimeout], NoTimer).
Proof.
  intros Hp Ht. unfold armTimeout. rewrite Hp.
  destruct (Z.leb_spec (timeout f) 0); [reflexivity|lia].
Qed.

(** A positive timeout of at most 9223372036 seconds arms a timer of that
    many seconds, without a warning. *)
Lemma armTimeout_positive (f : Flags) :
  isFlagPassed f "timeout" = true -> 0 < timeout f <= 9223372036 ->
  armTimeout f = ([], Armed (timeout f * GoTime.Second)).
Proof.
  intros Hp Ht. unfold armTimeout, GoTime.Duration, GoTime.Second. rewrite Hp.
  destruct (Z.leb_spec (timeout f) 0); [lia|].
  now rewrite (int64_small (timeout f)), int64_small by lia.
Qed.

(** The timer's send and the operator's interrupt are the same message on
    the same channel: when [quit] has room they leave the same process,
    but for the timer being spent. *)
Lemma timer_same_path (env : Env) (cfg : Setup) (s : Sys) (d : Z) :
  timer s = Armed d -> hasRoom (quit s) = true ->
  let s1 := step env cfg s TimerRuns in
  let s2 := step env cfg s SigInt in
  running s1 = running s2 /\ quit s1 = quit s2 /\
  listener s1 = listener s2 /\ proc s1 = proc s2.
Proof.
  intros Ht Hr. unfold step. rewrite Ht, Hr.
  destruct (status (proc s)); repeat split.
Qed.

(** C9. With [--timeout 9223372037] the conversion to nanoseconds wraps
    around: the timer is armed with a negative duration, which elapses at
    once, and not with 9223372037 seconds. *)
Theorem timeout_duration_overflows :
  let f := flagsOf "" 9223372037 ["interface"; "timeout"] in
  isFlagPassed f "timeout" = true /\
  0 < timeout f <= GoInt.maxInt64 /\
  armTimeout f = ([], Armed (-9223372036709551616)) /\
  main kernelOk f
  = BootLoop (setupOf defaultChannels) (sys0 (Armed (-9223372036709551616))) /\
  -9223372036709551616 <> timeout f * GoTime.Second.
Proof.
  cbv zeta. split; [reflexivity|]. split; [vm_compute; split; congruence|].
  split; [reflexivity|]. split; [reflexivity|]. vm_compute. discriminate.
Qed.

(* ================================================================== *)
(** * Further properties of the program *)

(** ** checkMonitorInterface *)

Lemma find_first {A} (p : A -> bool) (pre post : list A) (w : A) :
  Forall (fun x => p x = false) pre -> p w = true ->
  find p (pre ++ w :: post) = Some w.
Proof.
  intros Hpre Hw. induction Hpre as [|x pre Hx _ IH]; cbn [app find].
  - now rewrite Hw.
  - now rewrite Hx.
Qed.

Lemma find_absent {A} (p : A -> bool) (l : list A) :
  Forall (fun x => p x = false) l -> find p l = None.
Proof.
  intros H. induction H as [|x l Hx _ IH]; cbn [find]; [reflexivity|].
  now rewrite Hx.
Qed.

Lemma name_differs (name : string) (l : list Wifi.Interface) :
  Forall (fun x => Wifi.Name x <> name) l ->
  Forall (fun x => String.eqb (Wifi.Name x) name = false) l.
Proof.
  intros H. eapply Forall_impl; [|exact H].
  intros x Hx. now apply String.eqb_neq.
Qed.

Lemma checkMonitorInterface_find
  (env : Env) (name : string) (w : Wifi.Interface) :
  checkMonitorInterface env name = CheckOk w ->
  wifi_New env = None /\
  exists l,
    client_Interfaces env = inl l /\
    find (fun x => String.eqb (Wifi.Name x) name) l = Some w /\
    Wifi.isMonitor (Wifi.Type_ w) = true.
Proof.
  unfold checkMonitorInterface.
  destruct (wifi_New env); [discriminate|].
  destruct (client_Interfaces env) as [l|e]; [|discriminate].
  destruct (find _ l) as [x|] eqn:Ef; [|discriminate].
  destruct (Wifi.isMonitor (Wifi.Type_ x)) eqn:Et; cbn; [|discriminate].
  intros [= <-]. split; [reflexivity|]. exists l. auto.
Qed.

Lemma isMonitor_true (t : Wifi.InterfaceType) :
  Wifi.isMonitor t = true -> t = Wifi.InterfaceTypeMonitor.
Proof. destruct t; [reflexivity|discriminate]. Qed.

(** X1. An interface that [checkMonitorInterface] accepts is one of those
    the system lists, bears the requested name and is in monitor mode. *)
Theorem checkMonitorInterface_sound
  (env : Env) (name : string) (w : Wifi.Interface) :
  checkMonitorInterface env name = CheckOk w ->
  wifi_New env = None /\
  (exists l, client_Interfaces env = inl l /\ In w l) /\
  Wifi.Name w = name /\
  Wifi.Type_ w = Wifi.InterfaceTypeMonitor.
Proof.
  intros H.
  destruct (checkMonitorInterface_find env name w H)
    as (Hnew & l & Hl & Hf & Hm).
  apply find_some in Hf as [Hin Hname].
  apply String.eqb_eq in Hname. apply isMonitor_true in Hm.
  split; [exact Hnew|]. split; [now exists l|]. now split.
Qed.

Lemma checkMonitorInterface_sound_witness :
  Wifi.Name wlan0mon = "wlan0mon" /\
  Wifi.Type_ wlan0mon = Wifi.InterfaceTypeMonitor.
Proof.
  destruct (checkMonitorInterface_sound (kernelWith [wlan0; wlan0mon])
              "wlan0mon" wlan0mon eq_refl) as (_ & _ & Hn & Ht).
  split; [exact Hn|exact Ht].
Defined.

(** X2. The first listed interface that bears the requested name decides:
    it is returned when it is in monitor mode, and otherwise the call
    fails with "... is not in monitor mode", whatever follows it in the
    list. *)
Theorem checkMonitorInterface_first_match
  (env : Env) (name : string) (pre post : list Wifi.Interface)
  (w : Wifi.Interface) :
  wifi_New env = None ->
  client_Interfaces env = inl (pre ++ w :: post) ->
  Forall (fun x => Wifi.Name x <> name) pre ->
  Wifi.Name w = name ->
  checkMonitorInterface env name
  = if Wifi.isMonitor (Wifi.Type_ w) then CheckOk w
    else CheckErr (notMonitor name).
Proof.
  intros Hnew Hl Hpre Hw. unfold checkMonitorInterface.
  rewrite Hnew, Hl.
  rewrite (find_first _ pre post w (name_differs _ _ Hpre))
    by now apply String.eqb_eq.
  now destruct (Wifi.isMonitor (Wifi.Type_ w)).
Qed.

Lemma checkMonitorInterface_first_match_witness :
  checkMonitorInterface
    (kernelWith
       [wlan0mon;
        {| Wifi.Index := 4; Wifi.Name := "wlan0";
           Wifi.Type_ := Wifi.InterfaceTypeOther |};
        {| Wifi.Index := 5; Wifi.Name := "wlan0";
           Wifi.Type_ := Wifi.InterfaceTypeMonitor |}])
    "wlan0"
  = CheckErr (notMonitor "wlan0").
Proof.
  apply (checkMonitorInterface_first_match _ "wlan0" [wlan0mon]
           [{| Wifi.Index := 5; Wifi.Name := "wlan0";
               Wifi.Type_ := Wifi.InterfaceTypeMonitor |}]
           {| Wifi.Index := 4; Wifi.Name := "wlan0";
              Wifi.Type_ := Wifi.InterfaceTypeOther |}).
  - reflexivity.
  - reflexivity.
  - repeat constructor. discriminate.
  - reflexivity.
Defined.

(** X3. When no listed interface bears the requested name the call fails
    with "cannot find ...", and an error of the interface listing is
    returned as it is. *)
Theorem checkMonitorInterface_missing
  (env : Env) (name : string) :
  wifi_New env = None ->
  (forall l, client_Interfaces env = inl l ->
     Forall (fun x => Wifi.Name x <> name) l ->
     checkMonitorInterface env name = CheckErr (cannotFind name)) /\
  (forall e, client_Interfaces env = inr e ->
     checkMonitorInterface env name = CheckErr e).
Proof.
  intros Hnew. unfold checkMonitorInterface. rewrite Hnew. split.
  - intros l -> Hl. now rewrite (find_absent _ l (name_differs _ _ Hl)).
  - now intros e ->.
Qed.

Lemma checkMonitorInterface_missing_witness :
  checkMonitorInterface (kernelWith [wlan0; wlan0mon]) "eth0"
  = CheckErr "cannot find eth0".
Proof.
  destruct (checkMonitorInterface_missing (kernelWith [wlan0; wlan0mon])
              "eth0" eq_refl) as (H & _).
  apply (H [wlan0; wlan0mon] eq_refl).
  repeat constructor; discriminate.
Defined.

(** ** channelToFrequency *)

Lemma channelToFrequency_band (c : Z) :
  1 <= c <= 14 -> 2412 <= channelToFrequency c <= 2484.
Proof.
  intros H. unfold channelToFrequency.
  destruct (Z.leb_spec c 0); [lia|].
  destruct (Z.eqb_spec c 14); [lia|].
  destruct (Z.ltb_spec c 14); [|lia].
  rewrite (int64_small (c * 5)) by lia. rewrite int64_small by lia. lia.
Qed.

(** X4. The mapper answers a frequency other than 0 exactly for the
    channels 1 to 14, and then one between 2412 and 2484 MHz. *)
Theorem channelToFrequency_valid (c : Z) :
  (channelToFrequency c <> 0 <-> 1 <= c <= 14) /\
  (1 <= c <= 14 -> 2412 <= channelToFrequency c <= 2484).
Proof.
  unfold channelToFrequency.
  destruct (Z.leb_spec c 0).
  - split; [split; [congruence|lia]|lia].
  - destruct (Z.eqb_spec c 14).
    + split; [split; [lia|discriminate]|lia].
    + destruct (Z.ltb_spec c 14).
      * rewrite (int64_small (c * 5)) by lia.
        rewrite int64_small by lia.
        split; [split; lia|lia].
      * split; [split; [congruence|lia]|lia].
Qed.

Lemma channelToFrequency_valid_witness :
  2412 <= channelToFrequency 13 <= 2484 /\ channelToFrequency 13 <> 0.
Proof.
  destruct (channelToFrequency_valid 13) as (Hnz & Hr).
  split; [apply Hr; lia|apply Hnz; lia].
Defined.

(** X5. On the channels 1 to 14 the mapper is strictly increasing, hence
    one to one: two valid channels never share a frequency. *)
Theorem channelToFrequency_increasing (a b : Z) :
  1 <= a -> a < b -> b <= 14 ->
  channelToFrequency a < channelToFrequency b.
Proof.
  intros Ha Hab Hb. unfold channelToFrequency.
  destruct (Z.leb_spec a 0); [lia|].
  destruct (Z.leb_spec b 0); [lia|].
  destruct (Z.eqb_spec a 14); [lia|].
  destruct (Z.ltb_spec a 14); [|lia].
  rewrite (int64_small (a * 5)) by lia.
  rewrite (int64_small (2407 + a * 5)) by lia.
  destruct (Z.eqb_spec b 14); [lia|].
  destruct (Z.ltb_spec b 14); [|lia].
  rewrite (int64_small (b * 5)) by lia.
  rewrite (int64_small (2407 + b * 5)) by lia.
  lia.
Qed.

Lemma channelToFrequency_increasing_witness :
  channelToFrequency 13 < channelToFrequency 14.
Proof.
  apply channelToFrequency_increasing; lia.
Defined.

(** ** parseChannelsString *)

Lemma strip_app (a b : string) :
  Spec.strip (a ++ b)%string = (Spec.strip a ++ Spec.strip b)%string.
Proof. apply str_filter_app. Qed.

Lemma strip_junk (junk : string) :
  str_forall Regexp.inClass junk = true -> Spec.strip junk = EmptyString.
Proof.
  unfold Spec.strip. induction junk as [|c r IH]; cbn [str_forall str_filter];
    [reflexivity|].
  intros H. apply andb_true_iff in H as [Hc Hr].
  rewrite keep_not_inClass in Hc. apply negb_true_iff in Hc.
  now rewrite Hc, IH.
Qed.

Lemma parse_by_tokens (a b : string) :
  Spec.tokens a = Spec.tokens b -> parseChannelsString a = parseChannelsString b.
Proof.
  intros H. rewrite !parseChannelsString_refines.
  unfold Spec.parse, Spec.warnings. now rewrite H.
Qed.

(** X6. Bytes that are neither digits nor commas do not count, wherever
    they stand: inserting a run of them anywhere in the input changes
    neither the list returned nor the warnings written. *)
Theorem parse_ignores_junk (a junk b : string) :
  str_forall Regexp.inClass junk = true ->
  parseChannelsString (a ++ junk ++ b)%string
  = parseChannelsString (a ++ b)%string.
Proof.
  intros H. apply parse_by_tokens. unfold Spec.tokens.
  now rewrite !strip_app, (strip_junk _ H).
Qed.

Lemma parse_ignores_junk_witness :
  parseChannelsString ("1,1" ++ " ch-" ++ "1,6")%string
  = parseChannelsString ("1,1" ++ "1,6")%string.
Proof.
  apply parse_ignores_junk. reflexivity.
Defined.

(** X7. The parser reads the two sides of a comma independently: the
    result for [a,b] is the result for [a] followed by the result for
    [b], and likewise for the warnings. *)
Theorem parse_comma_app (a b : string) :
  parsed (a ++ String comma b)%string = parsed a ++ parsed b /\
  parse_warnings (a ++ String comma b)%string
  = parse_warnings a ++ parse_warnings b.
Proof.
  rewrite !parsed_spec, !parse_warnings_spec.
  unfold Spec.parse, Spec.warnings, Spec.tokens.
  rewrite strip_app.
  change (Spec.strip (String comma b)) with (String comma (Spec.strip b)).
  rewrite Split_app_comma, !flat_map_app. split; reflexivity.
Qed.

Lemma flat_map_filter {A B} (p : A -> bool) (g : A -> list B) (l : list A) :
  flat_map (fun x => if p x then g x else []) l = flat_map g (filter p l).
Proof.
  induction l as [|x l IH]; cbn [flat_map filter]; [reflexivity|].
  rewrite IH. now destruct (p x).
Qed.

(** X8. The only warnings of the parser are those for tokens whose value
    does not fit 32 bits: two lines for each such token, in order, the
    first carrying a range error of [ParseInt] on that token.  A syntax
    error never happens. *)
Theorem parse_warnings_overflow_only (input : string) :
  parse_warnings input
  = flat_map rangeWarning (filter Spec.overflows (parts input)).
Proof.
  rewrite parse_warnings_spec, parts_tokens. unfold Spec.warnings.
  apply (flat_map_filter Spec.overflows rangeWarning).
Qed.

Lemma Split_length (s : string) :
  List.length (Strings.Split s) = S (countComma s).
Proof.
  induction s as [|c r IH]; cbn [Strings.Split countComma]; [reflexivity|].
  destruct (isComma c); cbn [List.length]; [now rewrite IH|].
  destruct (Strings.Split r) as [|f fs] eqn:E; [now apply Split_nonempty in E|].
  exact IH.
Qed.

Lemma countComma_strip (s : string) :
  countComma (Spec.strip s) = countComma s.
Proof.
  unfold Spec.strip. induction s as [|c r IH]; cbn [str_filter countComma];
    [reflexivity|].
  replace (Spec.keep c) with (isDigit c || isComma c) by reflexivity.
  destruct (isComma c) eqn:Ec.
  - rewrite orb_true_r. cbn [countComma]. now rewrite Ec, IH.
  - rewrite orb_false_r. destruct (isDigit c); [|exact IH].
    cbn [countComma]. now rewrite Ec.
Qed.

Lemma tokenValue_length (tok : string) :
  (List.length (Spec.tokenValue tok) <= 1)%nat.
Proof.
  unfold Spec.tokenValue.
  destruct (_ || _ || _); cbn [List.length]; lia.
Qed.

Lemma flat_map_tokenValue_length (toks : list string) :
  (List.length (flat_map Spec.tokenValue toks) <= List.length toks)%nat.
Proof.
  induction toks as [|t toks IH]; cbn [flat_map List.length]; [lia|].
  rewrite length_app. pose proof (tokenValue_length t). lia.
Qed.

(** X9. Every number returned fits a signed 32-bit integer (it lies
    between 1 and 2147483647), and the list returned has at most one
    element more than the input has commas. *)
Theorem parsed_bounds (input : string) :
  Forall (fun v => 1 <= v <= 2147483647) (parsed input) /\
  (List.length (parsed input) <= S (countComma input))%nat.
Proof.
  rewrite parsed_spec. split.
  - eapply Forall_impl; [|apply parse_range].
    intros v Hv. cbv beta in Hv. lia.
  - unfold Spec.parse, Spec.tokens.
    rewrite <- (countComma_strip input), <- Split_length.
    apply flat_map_tokenValue_length.
Qed.

Lemma digits_single_token (t : string) :
  str_forall isDigit t = true -> Spec.tokens t = [t].
Proof.
  intros H. unfold Spec.tokens, Spec.strip.
  rewrite str_filter_id.
  - apply Split_no_comma. revert H. apply str_forall_impl.
    intros c Hc. now rewrite (digit_not_comma _ Hc).
  - revert H. apply str_forall_impl. intros c Hc.
    unfold Spec.keep. now rewrite Hc.
Qed.

(** X10. Leading zeros do not change the value read: for a non-empty
    string of digits [t], the input [0t] is parsed as [t] is. *)
Theorem parsed_leading_zero (t : string) :
  t <> EmptyString ->
  str_forall isDigit t = true ->
  parsed (String "0" t) = parsed t.
Proof.
  intros Hne H. rewrite !parsed_spec. unfold Spec.parse.
  rewrite (digits_single_token t H).
  rewrite (digits_single_token (String "0" t)) by (cbn [str_forall]; now rewrite H).
  cbn [flat_map]. f_equal.
  unfold Spec.tokenValue, Spec.overflows.
  destruct t as [|c r]; [congruence|]. reflexivity.
Qed.

Lemma parsed_leading_zero_witness : parsed "0011" = parsed "011".
Proof.
  apply parsed_leading_zero; [discriminate|reflexivity].
Defined.

(** ** [main] up to the loop *)

(** The warnings [main] writes before it checks the interface. *)
Lemma main_loop_shape (env : Env) (f : Flags) (cfg : Setup) (s : Sys) :
  main env f = BootLoop cfg s ->
  exists w fam,
    showHelp f = false /\ showVersion f = false /\
    interfaceName f <> EmptyString /\
    checkMonitorInterface env (interfaceName f) = CheckOk w /\
    genetlink_Dial env = None /\
    GetFamily env = inl fam /\
    cfg = {| channels := if len (parsed (channelsString f)) <=? 0
                         then defaultChannels
                         else parsed (channelsString f);
             iface := w; nl80211Family := fam; hopDelay := delay f |} /\
    s = {| running := true; quit := []; listener := true;
           timer := snd (armTimeout f);
           proc := start ((if isFlagPassed f "delay" && (delay f <? 10)
                           then [WarnDelay] else [])
                          ++ fst (armTimeout f)
                          ++ parse_warnings (channelsString f)) |}.
Proof.
  unfold main, parsed, parse_warnings.
  destruct (showHelp f); [discriminate|].
  destruct (showVersion f); [discriminate|].
  destruct (String.eqb_spec (interfaceName f) ""); [discriminate|].
  destruct (armTimeout f) as [out2 tm].
  destruct (parseChannelsString (channelsString f)) as [[channels0 e] out3].
  destruct (checkMonitorInterface env (interfaceName f)) as [|e'|w];
    try discriminate.
  destruct (genetlink_Dial env); [discriminate|].
  destruct (GetFamily env) as [fam|]; [|discriminate].
  intros [= <- <-]. exists w, fam. repeat split; assumption.
Qed.

(** X11. [main] reaches the hop loop exactly when neither [--help] nor
    [--version] is given, an interface name is given, that interface
    passes [checkMonitorInterface], the netlink socket opens and the
    nl80211 family resolves. *)
Theorem main_reaches_loop_iff (env : Env) (f : Flags) :
  (exists cfg s, main env f = BootLoop cfg s) <->
  showHelp f = false /\ showVersion f = false /\
  interfaceName f <> EmptyString /\
  (exists w, checkMonitorInterface env (interfaceName f) = CheckOk w) /\
  genetlink_Dial env = None /\
  (exists fam, GetFamily env = inl fam).
Proof.
  split.
  - intros (cfg & s & H).
    destruct (main_loop_shape env f cfg s H)
      as (w & fam & Hh & Hv & Hi & Hc & Hd & Hf & _).
    repeat split; eauto.
  - intros (Hh & Hv & Hi & (w & Hc) & Hd & (fam & Hf)).
    unfold main. rewrite Hh, Hv, Hc, Hd, Hf.
    destruct (String.eqb_spec (interfaceName f) ""); [contradiction|].
    destruct (armTimeout f) as [out2 tm].
    destruct (parseChannelsString (channelsString f)) as [[channels0 e] out3].
    eauto.
Qed.





Lemma parse_warnings_kinds (input : string) (o : Output) :
  In o (parse_warnings input) ->
  o = WarnPleaseReport \/ exists e, o = WarnParsing e.
Proof.
  rewrite parse_warnings_spec. unfold Spec.warnings, Spec.tokenWarning.
  intros H. apply in_flat_map in H as (t & _ & H).
  destruct (Spec.overflows t); [|destruct H].
  destruct H as [<-|[<-|[]]]; eauto.
Qed.

(** X14. Among the lines written before the loop, the warning about a
    small delay is there exactly when [--delay] was given with a value
    below 10, and the warning about the timeout exactly when [--timeout]
    was given with a value of 0 or less. *)
Theorem main_warnings (env : Env) (f : Flags) (cfg : Setup) (s : Sys) :
  main env f = BootLoop cfg s ->
  (In WarnDelay (stderr (proc s))
   <-> isFlagPassed f "delay" = true /\ delay f < 10) /\
  (In WarnTimeout (stderr (proc s))
   <-> isFlagPassed f "timeout" = true /\ timeout f <= 0).
Proof.
  intros H.
  destruct (main_loop_shape env f cfg s H)
    as (w & fam & _ & _ & _ & _ & _ & _ & _ & ->).
  cbn [proc start stderr].
  assert (Hp : forall o, In o (parse_warnings (channelsString f)) ->
                         o <> WarnDelay /\ o <> WarnTimeout).
  { intros o Ho. destruct (parse_warnings_kinds _ _ Ho) as [->|(e & ->)];
      split; discriminate. }
  assert (Hd : forall o,
             In o (if isFlagPassed f "delay" && (delay f <? 10)
                   then [WarnDelay] else [])
             <-> o = WarnDelay /\
                 isFlagPassed f "delay" = true /\ delay f < 10).
  { intros o. destruct (isFlagPassed f "delay");
      destruct (Z.ltb_spec (delay f) 10); cbn [andb In];
      intuition (congruence || lia). }
  assert (Ht : forall o,
             In o (fst (armTimeout f))
             <-> o = WarnTimeout /\
                 isFlagPassed f "timeout" = true /\ timeout f <= 0).
  { intros o. unfold armTimeout. destruct (isFlagPassed f "timeout");
      [destruct (Z.leb_spec (timeout f) 0)|]; cbn [fst In];
      intuition (congruence || lia). }
  split; rewrite !in_app_iff; split.
  - intros [H1|[H2|H3]].
    + now apply Hd in H1.
    + apply Ht in H2 as (E & _). discriminate.
    + destruct (Hp _ H3). congruence.
  - intros Hc. left. apply Hd. now split.
  - intros [H1|[H2|H3]].
    + apply Hd in H1 as (E & _). discriminate.
    + now apply Ht in H2.
    + destruct (Hp _ H3). congruence.
  - intros Hc. right. left. apply Ht. now split.
Qed.

Lemma main_warnings_witness :
  In WarnDelay [WarnDelay; WarnTimeout] /\
  In WarnTimeout [WarnDelay; WarnTimeout].
Proof.
  destruct (main_warnings kernelOk
              {| showHelp := false; showVersion := false;
                 interfaceName := "wlan0mon"; channelsString := "";
                 delay := 5; timeout := 0;
                 visited := ["interface"; "delay"; "timeout"] |}
              {| channels := defaultChannels; iface := wlan0mon;
                 nl80211Family := nl80211; hopDelay := 5 |}
              {| running := true; quit := []; listener := true;
                 timer := NoTimer; proc := start [WarnDelay; WarnTimeout] |}
              eq_refl) as (Hd & Ht).
  split; [apply Hd|apply Ht]; split; (reflexivity || lia).
Defined.

(** X15. Without [--timeout] no timer exists; with a timeout of 0 or less
    none either; with a timeout between 1 and 9223372036 seconds the
    timer is armed for exactly that many seconds. *)
Theorem main_timer (env : Env) (f : Flags) (cfg : Setup) (s : Sys) :
  main env f = BootLoop cfg s ->
  (isFlagPassed f "timeout" = false -> timer s = NoTimer) /\
  (timeout f <= 0 -> timer s = NoTimer) /\
  (isFlagPassed f "timeout" = true -> 0 < timeout f <= 9223372036 ->
   timer s = Armed (timeout f * 1000000000)).
Proof.
  intros H.
  destruct (main_loop_shape env f cfg s H)
    as (w & fam & _ & _ & _ & _ & _ & _ & _ & ->).
  cbn [timer]. split; [|split].
  - intros Hp. unfold armTimeout. now rewrite Hp.
  - intros Ht. unfold armTimeout.
    destruct (isFlagPassed f "timeout"); [|reflexivity].
    destruct (Z.leb_spec (timeout f) 0); [reflexivity|lia].
  - intros Hp Ht. now rewrite (armTimeout_positive f Hp Ht).
Qed.

Lemma main_timer_witness :
  timer (sys0 (Armed 30000000000)) = Armed (30 * 1000000000).
Proof.
  destruct (main_timer kernelOk (flagsOf "" 30 ["interface"; "timeout"])
              (setupOf defaultChannels) (sys0 (Armed 30000000000)) eq_refl)
    as (_ & _ & Ha).
  apply Ha; [reflexivity|cbn; lia].
Defined.

(** ** The hop loop, continued *)

Lemma hops_add (env : Env) (cfg : Setup) (a b : nat) (p : Proc) :
  hops env cfg (a + b) p = hops env cfg b (hops env cfg a p).
Proof.
  revert p. induction a as [|a IH]; intros p; [reflexivity|].
  cbn [Nat.add hops]. apply IH.
Qed.

Lemma Duration_small (n unit : Z) :
  - 9223372036854775808 <= n * unit < 9223372036854775808 ->
  - 9223372036854775808 <= n < 9223372036854775808 ->
  GoTime.Duration n unit = n * unit.
Proof.
  intros H Hn. unfold GoTime.Duration. now rewrite (int64_small n), int64_small.
Qed.

(** X16. After [n] acknowledged ticks exactly [n] commands have been
    submitted and [n] delays slept, each of the configured number of
    milliseconds, and the loop has written nothing to standard error. *)
Theorem ticks_bookkeeping
  (env : Env) (cfg : Setup) (out : list Output) (n : nat) :
  channels cfg <> [] ->
  len (channels cfg) <= GoInt.maxInt64 ->
  (forall k : nat, (k < n)%nat -> tickOk env cfg k) ->
  - 9223372036854 <= hopDelay cfg <= 9223372036854 ->
  let p := hops env cfg n (start out) in
  List.length (calls p) = n /\
  sleeps p = repeat (hopDelay cfg * 1000000) n /\
  stderr p = out.
Proof.
  intros Hne Hfit Hok Hd p. unfold p.
  rewrite (hops_afterTicks env cfg Hne Hfit out n Hok).
  cbn [afterTicks calls sleeps stderr].
  rewrite length_map, length_seq.
  unfold GoTime.Millisecond. rewrite Duration_small by lia.
  repeat split.
Qed.

Lemma ticks_bookkeeping_witness :
  sleeps (hops kernelOk (setupOf [1; 6; 11]) 4 (start []))
  = repeat (200 * 1000000) 4.
Proof.
  destruct (ticks_bookkeeping kernelOk (setupOf [1; 6; 11]) [] 4)
    as (_ & Hs & _).
  - discriminate.
  - vm_compute. discriminate.
  - intros k _. split; reflexivity.
  - cbn. lia.
  - exact Hs.
Defined.

(** X17. If the first [k] ticks are acknowledged and the kernel refuses
    the command of tick [k], every longer run ends in the same state:
    [k + 1] commands submitted, [k] delays slept, the cursor still on the
    refused channel, that channel and the error reported, exit status
    1. *)
Theorem run_until_failure
  (env : Env) (cfg : Setup) (out : list Output) (k n : nat) (err : error) :
  channels cfg <> [] ->
  len (channels cfg) <= GoInt.maxInt64 ->
  (forall j : nat, (j < k)%nat -> tickOk env cfg j) ->
  MarshalAttributes env (attributes cfg (channelAt cfg k)) = None ->
  Execute env k (setChannel cfg (channelAt cfg k)) = Some err ->
  (k < n)%nat ->
  hops env cfg n (start out)
  = {| idx := Z.of_nat k mod len (channels cfg);
       stderr := out ++ [CannotSetChannel (channelAt cfg k); ErrorLine err];
       calls := map (fun j => setChannel cfg (channelAt cfg j)) (seq 0 (S k));
       sleeps := repeat (GoTime.Duration (hopDelay cfg) GoTime.Millisecond) k;
       status := Exited 1 |}.
Proof.
  intros Hne Hfit Hok Hm He Hkn.
  replace n with (S k + (n - S k))%nat by lia.
  rewrite hops_add, hops_S, (hops_afterTicks env cfg Hne Hfit out k Hok).
  rewrite (hop_body env cfg _ (channelAt cfg k)); [| reflexivity | | exact Hm].
  - cbn [afterTicks calls idx stderr sleeps].
    rewrite length_map, length_seq, He.
    rewrite hops_stopped by (cbn; discriminate).
    rewrite seq_S, map_app. reflexivity.
  - cbn [afterTicks idx]. unfold channelAt.
    apply index_nth. now apply cursor_valid.
Qed.

Lemma run_until_failure_witness :
  hops (kernelFailsAt 4 "no such device") (setupOf [1; 6; 11]) 9 (start [])
  = {| idx := 1;
       stderr := [CannotSetChannel 6; ErrorLine "no such device"];
       calls := map (fun j => setChannel (setupOf [1; 6; 11])
                                (channelAt (setupOf [1; 6; 11]) j))
                    (seq 0 5);
       sleeps := repeat 200000000 4;
       status := Exited 1 |}.
Proof.
  apply (run_until_failure (kernelFailsAt 4 "no such device")
           (setupOf [1; 6; 11]) [] 4 9 "no such device").
  - discriminate.
  - vm_compute. discriminate.
  - intros j Hj. split; [reflexivity|].
    cbn [kernelFailsAt Execute].
    destruct (Nat.eqb_spec j 4); [lia|reflexivity].
  - reflexivity.
  - reflexivity.
  - lia.
Defined.

(** ** Invariants of the running process *)

Section RunInvariants.

Variable env : Env.
Variable cfg : Setup.

Lemma index_In {A} (l : list A) (i : Z) (x : A) :
  index l i = Some x -> In x l.
Proof.
  unfold index. destruct ((i <? 0) || (len l <=? i)); [discriminate|].
  apply nth_error_In.
Qed.

(** What a step does to the loop is nothing, or one [hop]. *)
Lemma step_proc_cases (s : Sys) (ev : Event) :
  proc (step env cfg s ev) = proc s \/
  proc (step env cfg s ev) = hop env cfg (running s) (proc s).
Proof.
  destruct (isMain ev) eqn:E.
  - right. destruct ev; try discriminate. apply step_main.
  - left. now apply step_proc.
Qed.

(** A property of the loop state kept by [hop] holds all along a run. *)
Lemma run_proc_invariant (P : Proc -> Prop) :
  (forall running p, P p -> P (hop env cfg running p)) ->
  forall evs s, P (proc s) -> P (proc (run env cfg evs s)).
Proof.
  intros Hhop evs. unfold run.
  induction evs as [|ev evs IH]; intros s Hs; [exact Hs|].
  cbn [fold_left]. apply IH.
  destruct (step_proc_cases s ev) as [-> | ->]; auto.
Qed.

Lemma hop_keeps_cursor (running : bool) (p : Proc) :
  len (channels cfg) <= GoInt.maxInt64 ->
  0 <= idx p < len (channels cfg) /\ status p <> Panicked ->
  0 <= idx (hop env cfg running p) < len (channels cfg) /\
  status (hop env cfg running p) <> Panicked.
Proof.
  intros Hfit [Hi Hs].
  unfold GoInt.maxInt64 in Hfit.
  change (2 ^ 63 - 1) with 9223372036854775807 in Hfit.
  unfold hop. destruct (status p) eqn:Est; try (rewrite Est; auto).
  destruct running; cbn [negb]; [|cbn; split; [assumption|discriminate]].
  rewrite (index_nth _ _ 0 Hi).
  destruct (MarshalAttributes env _); [cbn; split; [assumption|discriminate]|].
  destruct (Execute env _ _); cbn [idx status];
    [split; [assumption|discriminate]|].
  rewrite int64_small by lia.
  split; [|discriminate].
  destruct (Z.leb_spec (len (channels cfg)) (idx p + 1)); lia.
Qed.

Lemma hop_keeps_calls (running : bool) (p : Proc) :
  Forall (fun c => exists ch, In ch (channels cfg) /\ c = setChannel cfg ch)
         (calls p) ->
  Forall (fun c => exists ch, In ch (channels cfg) /\ c = setChannel cfg ch)
         (calls (hop env cfg running p)).
Proof.
  intros H. unfold hop. destruct (status p); try assumption.
  destruct running; cbn [negb]; [|assumption].
  destruct (index (channels cfg) (idx p)) as [ch|] eqn:Ei; [|assumption].
  destruct (MarshalAttributes env _); [assumption|].
  assert (Hnew : Forall (fun c => exists ch, In ch (channels cfg) /\
                                             c = setChannel cfg ch)
                        (calls p ++ [setChannel cfg ch])).
  { apply Forall_app. split; [assumption|].
    constructor; [|constructor]. exists ch. split; [|reflexivity].
    exact (index_In _ _ _ Ei). }
  destruct (Execute env _ _); exact Hnew.
Qed.




End RunInvariants.

(** X18. Whatever the operating system answers and whatever is
    scheduled, the process that [main] starts never panics on
    [channels[idx]]: the cursor stays a valid index of the channel
    list. *)
Theorem loop_never_panics
  (env : Env) (f : Flags) (cfg : Setup) (s0 : Sys) (evs : list Event) :
  main env f = BootLoop cfg s0 ->
  len (channels cfg) <= GoInt.maxInt64 ->
  0 <= idx (proc (run env cfg evs s0)) < len (channels cfg) /\
  status (proc (run env cfg evs s0)) <> Panicked.
Proof.
  intros Hmain Hfit.
  assert (Hne : channels cfg <> []).
  { destruct (main_loop_shape env f cfg s0 Hmain)
      as (w & fam & _ & _ & _ & _ & _ & _ & -> & _).
    cbn [channels].
    destruct (len (parsed (channelsString f)) <=? 0) eqn:E; [discriminate|].
    intros Hnil. rewrite Hnil in E. discriminate. }
  assert (Hstart : idx (proc s0) = 0 /\ status (proc s0) = Looping).
  { destruct (main_loop_shape env f cfg s0 Hmain)
      as (w & fam & _ & _ & _ & _ & _ & _ & _ & ->).
    split; reflexivity. }
  destruct Hstart as [Hi Hs].
  apply (run_proc_invariant env cfg
           (fun p => 0 <= idx p < len (channels cfg) /\ status p <> Panicked)).
  - intros running p. now apply hop_keeps_cursor.
  - rewrite Hi, Hs. split; [|discriminate].
    pose proof (len_pos _ Hne). lia.
Qed.

Lemma loop_never_panics_witness :
  status (proc (run kernelOk (setupOf [36; 1; 1])
                    [MainRuns; SigInt; MainRuns; MainRuns; ListenerRuns; MainRuns]
                    (sys0 NoTimer)))
  <> Panicked.
Proof.
  apply (loop_never_panics kernelOk
           (flagsOf "36,1,1" 0 ["interface"; "channels"])
           (setupOf [36; 1; 1]) (sys0 NoTimer)).
  - reflexivity.
  - vm_compute. discriminate.
Defined.



(** X20. When every channel of the list lies between 1 and 14, every
    command ever submitted carries a frequency between 2412 and 2484
    MHz: none carries frequency 0. *)
Theorem valid_channels_valid_frequencies
  (env : Env) (cfg : Setup) (evs : list Event) (s : Sys) :
  Forall (fun ch => 1 <= ch <= 14) (channels cfg) ->
  calls (proc s) = [] ->
  Forall (fun c => exists v, wiphyFreq (Genetlink.msg c) = Some v /\
                             2412 <= v <= 2484)
         (calls (proc (run env cfg evs s))).
Proof.
  intros Hvalid Hc.
  assert (H : Forall (fun c => exists ch, In ch (channels cfg) /\
                                          c = setChannel cfg ch)
                     (calls (proc (run env cfg evs s)))).
  { apply (run_proc_invariant env cfg
             (fun p => Forall (fun c => exists ch, In ch (channels cfg) /\
                                                   c = setChannel cfg ch)
                              (calls p))).
    - intros running p. apply hop_keeps_calls.
    - rewrite Hc. constructor. }
  eapply Forall_impl; [|exact H].
  intros c (ch & Hin & ->). rewrite Forall_forall in Hvalid.
  exists (channelToFrequency ch). split; [apply wiphyFreq_setChannel|].
  apply channelToFrequency_band. now apply Hvalid.
Qed.

Lemma valid_channels_valid_frequencies_witness :
  Forall (fun c => exists v, wiphyFreq (Genetlink.msg c) = Some v /\
                             2412 <= v <= 2484)
         (calls (proc (run kernelOk (setupOf defaultChannels)
                           [MainRuns; MainRuns; SigInt; MainRuns]
                           (sys0 NoTimer)))).
Proof.
  apply valid_channels_valid_frequencies.
  - repeat constructor; lia.
  - reflexivity.
Defined.





Lemma filter_isMain_cons (ev : Event) (evs : list Event) :
  countMain (ev :: evs)
  = ((if isMain ev then 1 else 0) + countMain evs)%nat.
Proof. unfold countMain. cbn [filter]. now destruct (isMain ev). Qed.

(** X23. Without a timer and without an interrupt the loop never stops
    by itself: as long as the kernel acknowledges the commands, the flag
    stays up and the process has done one tick for each time the main
    goroutine was scheduled. *)
Theorem runs_until_interrupted
  (env : Env) (cfg : Setup) (out : list Output) (evs : list Event) :
  channels cfg <> [] ->
  len (channels cfg) <= GoInt.maxInt64 ->
  (forall k : nat, tickOk env cfg k) ->
  forallb (fun ev => negb (isSigInt ev)) evs = true ->
  run env cfg evs
      {| running := true; quit := []; listener := true; timer := NoTimer;
         proc := start out |}
  = {| running := true; quit := []; listener := true; timer := NoTimer;
       proc := afterTicks cfg out (countMain evs) |}.
Proof.
  intros Hne Hfit Hok Hevs.
  assert (G : forall evs k,
             forallb (fun ev => negb (isSigInt ev)) evs = true ->
             run env cfg evs
                 {| running := true; quit := []; listener := true;
                    timer := NoTimer; proc := afterTicks cfg out k |}
             = {| running := true; quit := []; listener := true;
                  timer := NoTimer;
                  proc := afterTicks cfg out (k + countMain evs) |}).
  { clear evs Hevs. induction evs as [|ev evs IH]; intros k H.
    - unfold countMain. cbn. now rewrite Nat.add_0_r.
    - cbn [forallb] in H. apply andb_true_iff in H as [Hev H].
      change (run env cfg (ev :: evs) ?s)
        with (run env cfg evs (step env cfg s ev)).
      rewrite filter_isMain_cons.
      destruct ev; try discriminate; cbn [isMain].
      + change (step env cfg ?s TimerRuns) with s.
        rewrite (IH k H). f_equal.
      + change (step env cfg ?s ListenerRuns) with s.
        rewrite (IH k H). f_equal.
      + unfold step at 1. cbn [proc afterTicks status running quit listener timer].
        fold (afterTicks cfg out k).
        rewrite (afterTicks_hop env cfg Hne Hfit out k (Hok k)).
        rewrite (IH (S k) H). do 2 f_equal. lia. }
  replace (start out) with (afterTicks cfg out 0).
  - apply (G evs 0%nat Hevs).
  - unfold afterTicks, start. cbn [seq map repeat].
    now rewrite Z.mod_0_l by (pose proof (len_pos _ Hne); lia).
Qed.

Lemma runs_until_interrupted_witness :
  run kernelOk (setupOf [1; 6; 11])
      [MainRuns; TimerRuns; MainRuns; ListenerRuns; MainRuns; MainRuns]
      (sys0 NoTimer)
  = {| running := true; quit := []; listener := true; timer := NoTimer;
       proc := afterTicks (setupOf [1; 6; 11]) [] 4 |}.
Proof.
  apply (runs_until_interrupted kernelOk (setupOf [1; 6; 11]) []).
  - discriminate.
  - vm_compute. discriminate.
  - intros k. split; reflexivity.
  - reflexivity.
Defined.
